(** * Hypixel guild cache: a shallow embedding of the refresh subsystem

    The repository holds two variants of one Express server:
    [index.js] (TTL of seven days, sixty queue slots per minute, the
    [/unguilded] endpoint) and a later file (TTL of one hour, one queue slot
    per minute, the level sweeper).  Both share the scan code.  The embedding
    below follows the JavaScript statement by statement:

    - the SQLite tables are finite maps keyed by their primary key;
    - the module-level [stats] object, the pending tasks of the [PQueue]
      and the wall clock are fields of one [World];
    - a promise is a computation in a state-and-exception monad [M]:
      [Returned] is a resolved promise, [Threw] a rejected one;
    - what the outside world answers (the HTTP replies of the Hypixel API,
      whether SQLite reports an error for a statement that has an error
      callback) is read from an environment [Env].

    Modelling conventions.  Statements issued without awaiting them take
    effect in program order.  The clock does not advance inside one
    operation except through [setTimeout].  The tables have the columns the
    program's own [CREATE TABLE] and [ALTER TABLE] statements declare; the
    sweeper's file, which does not create [players_no_guild] itself, runs on
    the table as [index.js] created it.  JavaScript numbers that hold levels
    are exact rationals. *)

From Stdlib Require Import ZArith QArith Lia Ascii String.
From stdpp Require Import base option list strings gmap sorting.

Local Open Scope string_scope.
Local Open Scope list_scope.
Local Open Scope Z_scope.

(** ** Payloads of the remote API *)

Record GuildMember := { gm_uuid : string; gm_rank : string }.

(** [response.data.guild] of [/v2/guild]: [_id], [name], [tag], [members]. *)
Record Guild := {
  g_id : string;
  g_name : string;
  g_tag : option string;
  g_members : list GuildMember
}.

Record GuildBody := { success : bool; guild : option Guild }.

(** [/v2/skyblock/profiles]: only the path
    [profile?.members?.[uuid]?.leveling?.experience] is read. *)
Record Leveling := { experience : option Z }.
Record ProfileMember := { leveling : option Leveling }.
Record Profile := { pf_members : option (gmap string ProfileMember) }.
Record ProfilesBody := {
  pb_success : bool;
  pb_profiles : option (list (option Profile))
}.

(** What [axios.get] settles to: it rejects on a transport error or a
    non-2xx status and resolves with the parsed body otherwise. *)
Inductive http (A : Type) : Type :=
  | Rejected
  | Replied (data : A).
Arguments Rejected {A}.
Arguments Replied {A} data.

(** ** The store *)

Record GuildRow := {
  name : string;
  tag : string;
  gr_last_scan : option Z;
  avg_sb_level : option Q
}.

Record MemberRow := {
  guild_id : string;
  rank : string;
  last_scan : option Z;
  highest_sb_level : option Q;
  level_last_updated : option Z
}.

(** [players_no_guild]: the table the scan and [POST /player] use. *)
Record NoGuildRow := { ng_name : option string; ng_last_scan : option Z }.

(** [unguilded_players]: the table [GET /unguilded] reads. *)
Record UnguildedRow := { ug_name : option string; last_scanned : option Z }.

Record Db := {
  guilds : gmap string GuildRow;
  members : gmap string MemberRow;
  players_no_guild : gmap string NoGuildRow;
  unguilded_players : gmap string UnguildedRow
}.

Definition with_guilds (f : gmap string GuildRow → gmap string GuildRow) (d : Db) : Db :=
  {| guilds := f (guilds d); members := members d;
     players_no_guild := players_no_guild d;
     unguilded_players := unguilded_players d |}.

Definition with_members (f : gmap string MemberRow → gmap string MemberRow) (d : Db) : Db :=
  {| guilds := guilds d; members := f (members d);
     players_no_guild := players_no_guild d;
     unguilded_players := unguilded_players d |}.

Definition with_players_no_guild
    (f : gmap string NoGuildRow → gmap string NoGuildRow) (d : Db) : Db :=
  {| guilds := guilds d; members := members d;
     players_no_guild := f (players_no_guild d);
     unguilded_players := unguilded_players d |}.

(** ** The [stats] object, the queue and the world *)

Record Stats := {
  totalGuildsTracked : Z;
  guildsAddedTimestamps : list Z;
  hypixelApiRequestTimestamps : list Z;
  dbGuildRequestsTimestamps : list Z
}.

(** A queued task is the closure [() => scanPlayerGuild(cleanUUID)]; it is
    determined by the identifier it captured. *)
Record World := {
  db : Db;
  stats : Stats;
  queue : list string;
  clock : Z          (* Date.now(), in milliseconds *)
}.

Definition with_db (f : Db → Db) (w : World) : World :=
  {| db := f (db w); stats := stats w; queue := queue w; clock := clock w |}.
Definition with_stats (f : Stats → Stats) (w : World) : World :=
  {| db := db w; stats := f (stats w); queue := queue w; clock := clock w |}.
Definition with_queue (f : list string → list string) (w : World) : World :=
  {| db := db w; stats := stats w; queue := f (queue w); clock := clock w |}.
Definition with_clock (f : Z → Z) (w : World) : World :=
  {| db := db w; stats := stats w; queue := queue w; clock := f (clock w) |}.

Definition empty_db : Db :=
  {| guilds := ∅; members := ∅; players_no_guild := ∅; unguilded_players := ∅ |}.
Definition empty_stats : Stats :=
  {| totalGuildsTracked := 0; guildsAddedTimestamps := [];
     hypixelApiRequestTimestamps := []; dbGuildRequestsTimestamps := [] |}.
Definition start_world (t : Z) : World :=
  {| db := empty_db; stats := empty_stats; queue := []; clock := t |}.

(** ** The environment *)

(** The statements whose error callback the code inspects. *)
Inductive stmt :=
  | RemoveSelect      (* removePlayerFromOldGuild: SELECT guild_id FROM members *)
  | RemoveDelete      (* removePlayerFromOldGuild: DELETE FROM members *)
  | UpsertGuildInsert (* upsertGuild: INSERT INTO guilds *)
  | UpsertFinalize    (* upsertGuild: stmt.finalize *)
  | PlayerSelectMember   (* POST /player: SELECT * FROM members *)
  | PlayerSelectNoGuild  (* POST /player: SELECT * FROM players_no_guild *)
  | PlayerInsertNoGuild  (* POST /player: INSERT INTO players_no_guild *)
  | UnguildedSelect   (* GET /unguilded *)
  | StatsCount        (* GET /stats: SELECT COUNT(DISTINCT uuid) *)
  | SweepSelect       (* processGuildLevels: SELECT ... LIMIT 60 *)
  | LevelSelect.      (* updateMemberLevel: SELECT level_last_updated *)

Record Env := {
  guild_api : string → http GuildBody;
  profiles_api : string → http ProfilesBody;
  db_fails : stmt → bool
}.

(** ** Promises *)

Inductive error :=
  | AxiosError
  | SqliteError (s : stmt)
  | ReferenceError (identifier : string).

Inductive outcome (A : Type) : Type :=
  | Returned (a : A) (w : World)
  | Threw (e : error) (w : World).
Arguments Returned {A} a w.
Arguments Threw {A} e w.

Definition M (A : Type) : Type := World → outcome A.

Definition world_of {A} (o : outcome A) : World :=
  match o with Returned _ w => w | Threw _ w => w end.

#[global] Instance M_ret : MRet M := λ A a w, Returned a w.
#[global] Instance M_bind : MBind M := λ A B f m w,
  match m w with
  | Returned a w' => f a w'
  | Threw e w' => Threw e w'
  end.

Definition throw {A} (e : error) : M A := λ w, Threw e w.

(** [try { body } catch (error) { handler }] *)
Definition try_catch {A} (body : M A) (handler : error → M A) : M A := λ w,
  match body w with
  | Returned a w' => Returned a w'
  | Threw e w' => handler e w'
  end.

Definition gets {A} (f : World → A) : M A := λ w, Returned (f w) w.
Definition modify (f : World → World) : M unit := λ w, Returned tt (f w).

(** [for (const x of xs) { await body(x) }] *)
Fixpoint for_of {A} (xs : list A) (body : A → M unit) : M unit :=
  match xs with
  | [] => mret tt
  | x :: xs' => body x ;; for_of xs' body
  end.

(** [Date.now()] and the seconds clock [now()]. *)
Definition Date_now : M Z := gets clock.
Definition now : M Z := t ← Date_now; mret (t `div` 1000).

(** [await new Promise(r => setTimeout(r, ms))] *)
Definition setTimeout (ms : Z) : M unit := modify (with_clock (λ t, t + ms)).

(** A statement with an error callback: [err] is set when the environment
    says so, and then the statement changed nothing. *)
Definition db_run (E : Env) (s : stmt) (f : Db → Db) : M unit :=
  if db_fails E s then throw (SqliteError s) else modify (with_db f).
Definition db_get {A} (E : Env) (s : stmt) (q : Db → A) : M A :=
  if db_fails E s then throw (SqliteError s) else gets (λ w, q (db w)).
(** A statement issued without a callback. *)
Definition db_run_unchecked (f : Db → Db) : M unit := modify (with_db f).

(** [uuid.replace(/-/g, "")] *)
Fixpoint strip_hyphens (s : string) : string :=
  match s with
  | EmptyString => EmptyString
  | String c s' =>
      if Ascii.eqb c "-"%char then strip_hyphens s' else String c (strip_hyphens s')
  end.

(** ** Configuration *)

(** [IndexJs] is [index.js]; [LevelSweeper] is the file with
    [processGuildLevels]. *)
Inductive variant := IndexJs | LevelSweeper.

(** [const SEVEN_DAYS = ...], the TTL in seconds. *)
Definition SEVEN_DAYS (v : variant) : Z :=
  match v with
  | IndexJs => 7 * 24 * 60 * 60
  | LevelSweeper => 60 * 60
  end.

(** The options of [new PQueue({...})]. *)
Definition concurrency : Z := 1.
Definition interval : Z := 60 * 1000.
Definition intervalCap (v : variant) : Z :=
  match v with
  | IndexJs => 60
  | LevelSweeper => 1
  end.

(** ** Remote Fetcher *)

Definition axios_get {A} (r : http A) : M A :=
  match r with
  | Rejected => throw AxiosError
  | Replied data => mret data
  end.

Definition push_hypixelApiRequest (t : Z) (s : Stats) : Stats :=
  {| totalGuildsTracked := totalGuildsTracked s;
     guildsAddedTimestamps := guildsAddedTimestamps s;
     hypixelApiRequestTimestamps := hypixelApiRequestTimestamps s ++ [t];
     dbGuildRequestsTimestamps := dbGuildRequestsTimestamps s |}.

Definition fetchGuildByUUID (E : Env) (uuid : string) : M (option Guild) :=
  response ← axios_get (guild_api E uuid);
  t ← Date_now;
  modify (with_stats (push_hypixelApiRequest t)) ;;
  if success response then mret (guild response) else mret None.

(** [profile?.members?.[uuid]?.leveling?.experience] *)
Definition profile_experience (uuid : string) (profile : option Profile) : option Z :=
  p ← profile;
  ms ← pf_members p;
  m ← ms !! uuid;
  l ← leveling m;
  experience l.

(** [xp / 100] *)
Definition level_of_xp (xp : Z) : Q := Qmake xp 100.

(** [a > b] on levels *)
Definition level_gt (a b : Q) : bool := negb (Qle_bool a b).

(** One round of the loop over [profilesRes.data.profiles]. *)
Definition highest_step (uuid : string) (highestLevel : Q) (profile : option Profile) : Q :=
  match profile_experience uuid profile with
  | Some xp =>
      if xp =? 0 then highestLevel
      else if level_gt (level_of_xp xp) highestLevel then level_of_xp xp
      else highestLevel
  | None => highestLevel
  end.

Definition highest_level (uuid : string) (profiles : list (option Profile)) : Q :=
  foldl (highest_step uuid) (Qmake 0 1) profiles.

Definition fetchHighestSBLevel (E : Env) (uuid : string) : M (option Q) :=
  try_catch
    (profilesRes ← axios_get (profiles_api E uuid);
     t ← Date_now;
     modify (with_stats (push_hypixelApiRequest t)) ;;
     if negb (pb_success profilesRes) then mret None
     else match pb_profiles profilesRes with
          | None => mret None
          | Some profiles => mret (Some (highest_level uuid profiles))
          end)
    (λ err, mret None).

(** ** Reconciliation *)

(** [INSERT INTO guilds ... ON CONFLICT(guild_id) DO UPDATE SET name, tag,
    last_scan]: the other column keeps its value. *)
Definition upsert_guild_row (g : Guild) (lastScan : Z)
    (gs : gmap string GuildRow) : gmap string GuildRow :=
  <[g_id g := {| name := g_name g; tag := default "" (g_tag g);
                 gr_last_scan := Some lastScan;
                 avg_sb_level := gs !! g_id g ≫= avg_sb_level |}]> gs.

(** [INSERT INTO members ... ON CONFLICT(uuid) DO UPDATE SET guild_id, rank,
    last_scan] *)
Definition upsert_member_row (uuid gid rk : string) (memberLastScan : Z)
    (ms : gmap string MemberRow) : gmap string MemberRow :=
  <[uuid := {| guild_id := gid; rank := rk; last_scan := Some memberLastScan;
               highest_sb_level := ms !! uuid ≫= highest_sb_level;
               level_last_updated := ms !! uuid ≫= level_last_updated |}]> ms.

Definition bump_guilds (t : Z) (s : Stats) : Stats :=
  {| totalGuildsTracked := totalGuildsTracked s + 1;
     guildsAddedTimestamps := guildsAddedTimestamps s ++ [t];
     hypixelApiRequestTimestamps := hypixelApiRequestTimestamps s;
     dbGuildRequestsTimestamps := dbGuildRequestsTimestamps s |}.

Definition upsertGuild (E : Env) (g : Guild) : M unit :=
  lastScan ← now;
  db_run E UpsertGuildInsert (with_guilds (upsert_guild_row g lastScan)) ;;
  memberLastScan ← now;
  for_of (g_members g) (λ member,
    db_run_unchecked (with_members
      (upsert_member_row (strip_hyphens (gm_uuid member)) (g_id g)
                         (gm_rank member) memberLastScan))) ;;
  t ← Date_now;
  modify (with_stats (bump_guilds t)) ;;
  if db_fails E UpsertFinalize then throw (SqliteError UpsertFinalize) else mret tt.

Definition removePlayerFromOldGuild (E : Env) (uuid currentGuildId : string) : M bool :=
  row ← db_get E RemoveSelect (λ d, members d !! uuid);
  match row with
  | Some r =>
      if decide (guild_id r ≠ currentGuildId)
      then db_run E RemoveDelete (with_members (delete uuid)) ;; mret true
      else mret false
  | None => mret false
  end.

(** The insert of the "not in a guild" branch.  The sweeper's file names the
    columns [uuid] and [last_scan] and upserts the row.  [index.js] names a
    [name] column too, which the table declared by its own [CREATE TABLE]
    ([uuid], [last_scan]) does not have: SQLite refuses the statement and
    nothing is written.  The statement has no callback, so the error does not
    reach the promise of the scan. *)
Definition upsert_no_guild (v : variant) (uuid : string) (nm : option string)
    (lastScan : Z) (ps : gmap string NoGuildRow) : gmap string NoGuildRow :=
  match v with
  | IndexJs => ps
  | LevelSweeper =>
      <[uuid := {| ng_name := ps !! uuid ≫= ng_name; ng_last_scan := Some lastScan |}]> ps
  end.

Definition scanPlayerGuild (v : variant) (E : Env) (uuid : string)
    (nm : option string) : M unit :=
  try_catch
    (g ← fetchGuildByUUID E uuid;
     match g with
     | None =>
         n ← now;
         db_run_unchecked (with_players_no_guild (upsert_no_guild v uuid nm n))
     | Some g =>
         db_run_unchecked (with_players_no_guild (delete uuid)) ;;
         removePlayerFromOldGuild E uuid (g_id g) ;;
         upsertGuild E g
     end)
    (λ error, mret tt).

(** ** The queue *)

(** [queue.add(() => scanPlayerGuild(cleanUUID))] *)
Definition queue_add (uuid : string) : M unit :=
  modify (with_queue (λ q, q ++ [uuid])).


(** ** HTTP handlers *)

Inductive Reply (A : Type) : Type :=
  | Json (status : Z) (body : A)
  | JsonError (status : Z) (error : string).
Arguments Json {A} status body.
Arguments JsonError {A} status error.

(** [!row.last_scan || now() - row.last_scan > SEVEN_DAYS] *)
Definition stale (v : variant) (lastScan : option Z) (n : Z) : bool :=
  match lastScan with
  | None => true
  | Some s => (s =? 0) || (SEVEN_DAYS v <? n - s)
  end.

Definition post_player (v : variant) (E : Env) (uuid : option string) : M (Reply string) :=
  match uuid with
  | Some (String _ _ as uuid) =>
      let cleanUUID := strip_hyphens uuid in
      if db_fails E PlayerSelectMember then mret (JsonError 500 "Database error.")
      else
        member ← gets (λ w, members (db w) !! cleanUUID);
        match member with
        | Some member =>
            n ← now;
            if stale v (last_scan member) n then
              queue_add cleanUUID ;;
              mret (Json 200 ("Queued guild scan for guild " +:+ guild_id member))
            else mret (Json 200 "Guild recently scanned, no update needed.")
        | None =>
            if db_fails E PlayerSelectNoGuild then mret (JsonError 500 "Database error.")
            else
              player ← gets (λ w, players_no_guild (db w) !! cleanUUID);
              match player with
              | Some player =>
                  n ← now;
                  if stale v (ng_last_scan player) n then
                    queue_add cleanUUID ;;
                    mret (Json 200 ("Queued player scan for " +:+ cleanUUID))
                  else mret (Json 200 "Player recently scanned, no update needed.")
              | None =>
                  if db_fails E PlayerInsertNoGuild
                  then mret (JsonError 500 "Database insert error.")
                  else
                    modify (with_db (with_players_no_guild
                      (<[cleanUUID := {| ng_name := None; ng_last_scan := Some 0 |}]>))) ;;
                    queue_add cleanUUID ;;
                    mret (Json 200 "New player added and queued for scan.")
              end
        end
  | _ => mret (JsonError 400 "Missing uuid in request body.")
  end.


(** [countInWindow(timestamps, windowMs)] of [index.js]: drops the expired
    head of the array in place and returns what is left. *)
Fixpoint shift_expired (cutoff : Z) (timestamps : list Z) : list Z :=
  match timestamps with
  | t :: rest => if t <? cutoff then shift_expired cutoff rest else timestamps
  | [] => []
  end.

Definition countInWindow (field : Stats → list Z) (store : list Z → Stats → Stats)
    (windowMs : Z) : M Z :=
  t ← Date_now;
  modify (with_stats (λ s, store (shift_expired (t - windowMs) (field s)) s)) ;;
  gets (λ w, Z.of_nat (length (field (stats w)))).

Definition set_guildsAdded (l : list Z) (s : Stats) : Stats :=
  {| totalGuildsTracked := totalGuildsTracked s;
     guildsAddedTimestamps := l;
     hypixelApiRequestTimestamps := hypixelApiRequestTimestamps s;
     dbGuildRequestsTimestamps := dbGuildRequestsTimestamps s |}.
Definition set_hypixelApiRequest (l : list Z) (s : Stats) : Stats :=
  {| totalGuildsTracked := totalGuildsTracked s;
     guildsAddedTimestamps := guildsAddedTimestamps s;
     hypixelApiRequestTimestamps := l;
     dbGuildRequestsTimestamps := dbGuildRequestsTimestamps s |}.
Definition set_dbGuildRequests (l : list Z) (s : Stats) : Stats :=
  {| totalGuildsTracked := totalGuildsTracked s;
     guildsAddedTimestamps := guildsAddedTimestamps s;
     hypixelApiRequestTimestamps := hypixelApiRequestTimestamps s;
     dbGuildRequestsTimestamps := l |}.

(** The body of [GET /stats]; a field a variant does not send is [None]. *)
Record StatsData := {
  sd_totalGuildsTracked : Z;
  guildsAddedInLast60s : Z;
  hypixelApiRequestsLast5m : Z;
  dbRequestsInLast60s : option Z;
  playersTracked : option Z
}.

(** [timestamps.filter(ts => now - ts < windowMs).length] *)
Definition count_recent (t windowMs : Z) (timestamps : list Z) : Z :=
  Z.of_nat (length (filter (λ ts, t - ts < windowMs) timestamps)).

Definition get_stats (v : variant) (E : Env) : M (Reply StatsData) :=
  match v with
  | IndexJs =>
      total ← gets (λ w, totalGuildsTracked (stats w));
      added ← countInWindow guildsAddedTimestamps set_guildsAdded (60 * 1000);
      api ← countInWindow hypixelApiRequestTimestamps set_hypixelApiRequest (5 * 60 * 1000);
      reads ← countInWindow dbGuildRequestsTimestamps set_dbGuildRequests (60 * 1000);
      mret (Json 200 {| sd_totalGuildsTracked := total; guildsAddedInLast60s := added;
                        hypixelApiRequestsLast5m := api;
                        dbRequestsInLast60s := Some reads; playersTracked := None |})
  | LevelSweeper =>
      t ← Date_now;
      if db_fails E StatsCount then mret (JsonError 500 "Database error")
      else
        players ← gets (λ w, Z.of_nat (size (members (db w))));
        s ← gets stats;
        mret (Json 200
          {| sd_totalGuildsTracked := totalGuildsTracked s;
             guildsAddedInLast60s := count_recent t (60 * 1000) (guildsAddedTimestamps s);
             hypixelApiRequestsLast5m :=
               count_recent t (5 * 60 * 1000) (hypixelApiRequestTimestamps s);
             dbRequestsInLast60s := None; playersTracked := Some players |})
  end.

(** ** Periodic Sweeper *)

(** [ORDER BY m.level_last_updated ASC NULLS FIRST] *)
Definition nulls_first (a b : string * MemberRow) : Prop :=
  match level_last_updated a.2, level_last_updated b.2 with
  | None, _ => True
  | Some _, None => False
  | Some x, Some y => x ≤ y
  end.

#[global] Instance nulls_first_dec a b : Decision (nulls_first a b).
Proof.
  unfold nulls_first.
  destruct (level_last_updated a.2), (level_last_updated b.2); apply _.
Defined.

(** The rows [(uuid, guild_id)] of the sweep's [SELECT ... LIMIT 60].  Rows
    with equal keys come in the order the sort leaves them. *)
Definition sweep_batch (d : Db) : list (string * string) :=
  (λ r, (r.1, guild_id r.2)) <$> take 60 (merge_sort nulls_first (map_to_list (members d))).

(** [UPDATE members SET highest_sb_level = ?, level_last_updated = ?] *)
Definition set_level (lvl : Q) (nowTime : Z) (r : MemberRow) : MemberRow :=
  {| guild_id := guild_id r; rank := rank r; last_scan := last_scan r;
     highest_sb_level := Some lvl; level_last_updated := Some nowTime |}.

(** [row && row.level_last_updated && (nowTime - row.level_last_updated) < 604800000] *)
Definition level_is_fresh (row : option MemberRow) (nowTime : Z) : bool :=
  match row ≫= level_last_updated with
  | Some u => negb (u =? 0) && (nowTime - u <? 604800000)
  | None => false
  end.

Definition updateMemberLevel (E : Env) (uuid : string) : M unit :=
  nowTime ← Date_now;
  row ← db_get E LevelSelect (λ d, members d !! uuid);
  if level_is_fresh row nowTime then mret tt
  else
    lvl ← fetchHighestSBLevel E uuid;
    match lvl with
    | Some lvl => db_run_unchecked (with_members (alter (set_level lvl nowTime) uuid))
    | None => mret tt
    end.

(** [recalcGuildAverage] is called by [processGuildLevels] and declared
    nowhere in the program: evaluating the identifier raises a
    [ReferenceError]. *)
Definition recalcGuildAverage (gid : string) : M unit :=
  throw (ReferenceError "recalcGuildAverage").

Definition processGuildLevels (E : Env) : M unit :=
  if db_fails E SweepSelect then mret tt
  else
    rows ← gets (λ w, sweep_batch (db w));
    for_of rows (λ row,
      updateMemberLevel E row.1 ;;
      recalcGuildAverage row.2 ;;
      setTimeout 1000).

(** * Running the model on small inputs *)

Definition quiet : Env :=
  {| guild_api := λ _, Rejected; profiles_api := λ _, Rejected; db_fails := λ _, false |}.

Definition answering (g : http GuildBody) : Env :=
  {| guild_api := λ _, g; profiles_api := λ _, Rejected; db_fails := λ _, false |}.

Definition no_guild : http GuildBody := Replied {| success := true; guild := None |}.

Definition in_guild (g : Guild) : http GuildBody :=
  Replied {| success := true; guild := Some g |}.

Definition guild_A : Guild :=
  {| g_id := "aaaaaaaaaaaaaaaaaaaaaaaa"; g_name := "Alpha"; g_tag := Some "A";
     g_members := [ {| gm_uuid := "11112222-3333"; gm_rank := "Member" |};
                    {| gm_uuid := "9999"; gm_rank := "Guild Master" |} ] |}.

Definition guild_B : Guild :=
  {| g_id := "bbbbbbbbbbbbbbbbbbbbbbbb"; g_name := "Beta"; g_tag := None;
     g_members := [ {| gm_uuid := "111122223333"; gm_rank := "Officer" |} ] |}.

Definition steve : string := "111122223333".

(** * Notions the statements use *)

(** [preserves proj m]: whatever [m] does, and however it settles, the part
    [proj] of the world is afterwards what it was before. *)
Definition preserves {B A} (proj : World → B) (m : M A) : Prop :=
  ∀ w, proj (world_of (m w)) = proj w.

(** The calls the API-call counter has recorded, oldest first. *)
Definition api_calls (w : World) : list Z := hypixelApiRequestTimestamps (stats w).

(** What the loop over [guild.members] does to the store. *)
Definition upsert_members (g : Guild) (memberLastScan : Z) (d : Db) : Db :=
  foldl (λ d member,
           with_members (upsert_member_row (strip_hyphens (gm_uuid member)) (g_id g)
                                           (gm_rank member) memberLastScan) d)
        d (g_members g).

(** The world a completed [upsertGuild] leaves. *)
Definition upserted (g : Guild) (w : World) : World :=
  with_stats (bump_guilds (clock w))
    (with_db (λ d, upsert_members g (clock w `div` 1000)
                     (with_guilds (upsert_guild_row g (clock w `div` 1000)) d)) w).

(** The body of a [/stats] answer, if it is one. *)
Definition stats_body (o : outcome (Reply StatsData)) : option StatsData :=
  match o with
  | Returned (Json _ sd) _ => Some sd
  | _ => None
  end.

(** A store in which guild Alpha and its two members are already recorded. *)
Definition world_with_A : World :=
  world_of (scanPlayerGuild IndexJs (answering (in_guild guild_A)) steve None
              (start_world 5000000)).

(** The API answers with guild Beta and SQLite reports an error for the
    [INSERT INTO guilds]. *)
Definition failing_insert : Env :=
  {| guild_api := λ _, in_guild guild_B;
     profiles_api := λ _, Rejected;
     db_fails := λ s, match s with UpsertGuildInsert => true | _ => false end |}.

(** Alpha's roster was scanned long ago; now the player has left. *)
Definition world_after_leaving : World := with_clock (λ _, 9000000000) world_with_A.

(** A player the store has never seen, submitted to an empty store; then
    the worker runs the queued scan and the API knows no guild. *)
Definition fresh_player : string := "abcdabcdabcdabcdabcdabcdabcd1234".

Definition world_after_post : World :=
  world_of (post_player IndexJs quiet (Some fresh_player) (start_world 5000000)).


(** The player left Alpha; the scan of the sweeper's file that found this
    out was a second ago. *)
Definition world_both_rows : World :=
  with_clock (λ _, 9000001000)
    (world_of (scanPlayerGuild LevelSweeper (answering no_guild) steve None
                               world_after_leaving)).

(** The profiles endpoint answers with success and an empty array. *)
Definition empty_profiles_env : Env :=
  {| guild_api := λ _, Rejected;
     profiles_api := λ _, Replied {| pb_success := true; pb_profiles := Some [] |};
     db_fails := λ _, false |}.

(** The profiles endpoint answers with [success: false] and a profile in
    which the player has 12345 experience. *)
Definition unsuccessful_profiles_env : Env :=
  {| guild_api := λ _, Rejected;
     profiles_api := λ u, Replied
       {| pb_success := false;
          pb_profiles := Some
            [ Some {| pf_members :=
                        Some {[ u := {| leveling := Some {| experience := Some 12345 |} |} ]} |} ] |};
     db_fails := λ _, false |}.

(** The profiles endpoint answers with two profiles: one in which the
    player has 12345 experience and one without data for the player. *)
Definition levels_env : Env :=
  {| guild_api := λ _, Rejected;
     profiles_api := λ u, Replied
       {| pb_success := true;
          pb_profiles := Some
            [ Some {| pf_members :=
                        Some {[ u := {| leveling := Some {| experience := Some 12345 |} |} ]} |};
              Some {| pf_members := Some ∅ |} ] |};
     db_fails := λ _, false |}.

(** Guild Beta and its one member are recorded; no level was ever fetched. *)
Definition world_with_B : World :=
  world_of (scanPlayerGuild LevelSweeper (answering (in_guild guild_B)) steve None
              (start_world 5000000)).

(** * The read endpoints and the start-up query *)

(** The statements of the read endpoints whose error callback the code
    inspects. *)
Inductive read_stmt :=
  | GuildSelect         (* GET /guild/:identifier: SELECT ... FROM guilds *)
  | GuildMembersSelect  (* GET /guild/:identifier: SELECT ... FROM members *)
  | GuildsSelect        (* GET /guilds *)
  | StartupCount.       (* SELECT COUNT( * ) as count FROM guilds *)

(** [[a-f0-9]] *)
Definition is_hex_lower (c : ascii) : bool :=
  let n := nat_of_ascii c in
  ((48 <=? n)%nat && (n <=? 57)%nat) || ((97 <=? n)%nat && (n <=? 102)%nat).

(** [/^[a-f0-9]{24}$/.test(identifier)] *)
Definition isGuildId (identifier : string) : bool :=
  (String.length identifier =? 24)%nat
  && forallb is_hex_lower (list_ascii_of_string identifier).

(** The row [db.get(query, [identifier])] yields: by primary key when the
    identifier has the shape of a guild id, else the first row with that
    name (which one SQLite takes first among several is its choice). *)
Definition find_guild (identifier : string) (d : Db) : option (string * GuildRow) :=
  if isGuildId identifier
  then (λ row, (identifier, row)) <$> guilds d !! identifier
  else head (filter (λ r, name r.2 = identifier) (map_to_list (guilds d))).

(** [SELECT uuid, rank, last_scan FROM members WHERE guild_id = ?], mapped to
    [{uuid, rank}]. *)
Definition guild_roster (gid : string) (d : Db) : list (string * string) :=
  (λ r, (r.1, rank r.2)) <$> filter (λ r, guild_id r.2 = gid) (map_to_list (members d)).

Record GuildData := {
  gd_guild_id : string;
  gd_name : string;
  gd_tag : string;
  gd_last_scan : option Z;
  gd_members : list (string * string)
}.

Definition push_dbGuildRequest (t : Z) (s : Stats) : Stats :=
  {| totalGuildsTracked := totalGuildsTracked s;
     guildsAddedTimestamps := guildsAddedTimestamps s;
     hypixelApiRequestTimestamps := hypixelApiRequestTimestamps s;
     dbGuildRequestsTimestamps := dbGuildRequestsTimestamps s ++ [t] |}.

(** [GET /guild/:identifier], the same in both files. *)
Definition get_guild (fails : read_stmt → bool) (identifier : string) : M (Reply GuildData) :=
  if fails GuildSelect then mret (JsonError 500 "Database error")
  else
    g ← gets (λ w, find_guild identifier (db w));
    match g with
    | None => mret (JsonError 404 "Guild not found")
    | Some g =>
        t ← Date_now;
        modify (with_stats (push_dbGuildRequest t)) ;;
        if fails GuildMembersSelect then mret (JsonError 500 "Database error")
        else
          ms ← gets (λ w, guild_roster g.1 (db w));
          mret (Json 200 {| gd_guild_id := g.1; gd_name := name g.2; gd_tag := tag g.2;
                            gd_last_scan := gr_last_scan g.2; gd_members := ms |})
    end.



(** [ORDER BY memberCount DESC] *)
Definition count_desc (a b : string * Z) : Prop := b.2 ≤ a.2.

#[global] Instance count_desc_dec a b : Decision (count_desc a b).
Proof. unfold count_desc. apply _. Defined.


(** The query run once when the process starts:
    [if (!err && row) stats.totalGuildsTracked = row.count]. *)
Definition set_totalGuildsTracked (n : Z) (s : Stats) : Stats :=
  {| totalGuildsTracked := n;
     guildsAddedTimestamps := guildsAddedTimestamps s;
     hypixelApiRequestTimestamps := hypixelApiRequestTimestamps s;
     dbGuildRequestsTimestamps := dbGuildRequestsTimestamps s |}.

Definition startup_count (fails : read_stmt → bool) : M unit :=
  if fails StartupCount then mret tt
  else
    n ← gets (λ w, Z.of_nat (size (guilds (db w))));
    modify (with_stats (set_totalGuildsTracked n)).

(** * Further notions the statements use *)

(** The normalised identifiers of a fetched roster. *)
Definition roster_uuids (g : Guild) : list string :=
  (λ member, strip_hyphens (gm_uuid member)) <$> g_members g.

(** The rank the last roster entry for [uuid] carries, if there is one. *)
Fixpoint last_rank (uuid : string) (roster : list GuildMember) : option string :=
  match roster with
  | [] => None
  | member :: rest =>
      match last_rank uuid rest with
      | Some rk => Some rk
      | None => if decide (strip_hyphens (gm_uuid member) = uuid)
                then Some (gm_rank member) else None
      end
  end.

(** The largest experience the player has in any profile, or [0]. *)
Definition max_xp (uuid : string) (profiles : list (option Profile)) : Z :=
  foldl (λ m profile, match profile_experience uuid profile with
                      | Some xp => Z.max m xp
                      | None => m
                      end) 0 profiles.

(** No statement fails. *)
Definition healthy (E : Env) : Prop := ∀ s, db_fails E s = false.

Definition reads_ok : read_stmt → bool := λ _, false.

(** The store an hour after a scan found no guild for [fresh_player]. *)
Definition world_hour_after_absent : World :=
  with_clock (λ _, 5000000 + 3600000)
    (world_of (scanPlayerGuild LevelSweeper (answering no_guild)
                 (strip_hyphens fresh_player) None (start_world 5000000))).

(** The store seven days after a scan found the player in Alpha. *)
Definition world_week_after_found : World :=
  with_clock (λ _, 5000000 + 604800000)
    (world_of (scanPlayerGuild IndexJs (answering (in_guild guild_A))
                 (strip_hyphens "1111-2222-3333") None (start_world 5000000))).

(** The store just under seven days after the player's level was stored. *)
Definition world_week_after_level : World :=
  with_clock (λ _, 5000000 + 604799999)
    (world_of (updateMemberLevel levels_env steve world_with_B)).

(** * Reasoning about promises *)

Ltac unfold_M :=
  unfold now, queue_add, setTimeout, db_run, db_get, db_run_unchecked, axios_get in *;
  unfold Date_now in *;
  unfold mbind, M_bind, mret, M_ret, throw, try_catch, gets, modify in *.

Section Frame.
Context {B : Type} (proj : World → B).

Lemma preserves_ret {A} (a : A) : preserves proj (mret a).
Proof. by intros w. Qed.

Lemma preserves_throw {A} (e : error) : preserves proj (@throw A e).
Proof. by intros w. Qed.

Lemma preserves_gets {A} (f : World → A) : preserves proj (gets f).
Proof. by intros w. Qed.

Lemma preserves_modify (f : World → World) :
  (∀ w, proj (f w) = proj w) → preserves proj (modify f).
Proof. intros Hf w. apply Hf. Qed.

Lemma preserves_bind {A C} (m : M A) (f : A → M C) :
  preserves proj m → (∀ a, preserves proj (f a)) → preserves proj (m ≫= f).
Proof.
  intros Hm Hf w. specialize (Hm w). unfold mbind, M_bind.
  destruct (m w) as [a w'|e w']; simpl in *; [by rewrite Hf | done].
Qed.

Lemma preserves_try_catch {A} (m : M A) (h : error → M A) :
  preserves proj m → (∀ e, preserves proj (h e)) → preserves proj (try_catch m h).
Proof.
  intros Hm Hh w. specialize (Hm w). unfold try_catch.
  destruct (m w) as [a w'|e w']; simpl in *; [done | by rewrite Hh].
Qed.

Lemma preserves_for_of {A} (xs : list A) (body : A → M unit) :
  (∀ x, preserves proj (body x)) → preserves proj (for_of xs body).
Proof.
  intros Hb. induction xs as [|x xs IH]; simpl.
  - apply preserves_ret.
  - apply preserves_bind; [apply Hb | by intros _].
Qed.

Lemma preserves_if {A} (b : bool) (m1 m2 : M A) :
  preserves proj m1 → preserves proj m2 → preserves proj (if b then m1 else m2).
Proof. by destruct b. Qed.

End Frame.

Lemma fetchGuildByUUID_replied E uuid body w :
  guild_api E uuid = Replied body →
  fetchGuildByUUID E uuid w =
    Returned (if success body then guild body else None)
             (with_stats (push_hypixelApiRequest (clock w)) w).
Proof.
  intros H. unfold fetchGuildByUUID. rewrite H. unfold_M. simpl.
  by destruct (success body).
Qed.

Lemma fetchGuildByUUID_rejected E uuid w :
  guild_api E uuid = Rejected → fetchGuildByUUID E uuid w = Threw AxiosError w.
Proof. intros H. unfold fetchGuildByUUID. by rewrite H. Qed.

Lemma fetchHighestSBLevel_replied E uuid body w :
  profiles_api E uuid = Replied body →
  fetchHighestSBLevel E uuid w =
    Returned (if pb_success body then highest_level uuid <$> pb_profiles body else None)
             (with_stats (push_hypixelApiRequest (clock w)) w).
Proof.
  intros H. unfold fetchHighestSBLevel. rewrite H. unfold_M. simpl.
  destruct (pb_success body); simpl; [|done]. by destruct (pb_profiles body).
Qed.

Lemma fetchHighestSBLevel_rejected E uuid w :
  profiles_api E uuid = Rejected → fetchHighestSBLevel E uuid w = Returned None w.
Proof. intros H. unfold fetchHighestSBLevel. by rewrite H. Qed.

(** * The API-call counter *)

(** C3, as amended: a call of [fetchGuildByUUID] or [fetchHighestSBLevel]
    appends exactly one timestamp to the API-call counter when the HTTP
    request is answered (with a payload, with a business-level absence or
    with [success: false]), and leaves the counter as it was when the request
    is rejected (transport error or non-2xx status). *)
Theorem api_counter_counts_replies (E : Env) (uuid : string) (w : World) :
  api_calls (world_of (fetchGuildByUUID E uuid w)) =
    match guild_api E uuid with
    | Replied _ => api_calls w ++ [clock w]
    | Rejected => api_calls w
    end
  ∧ api_calls (world_of (fetchHighestSBLevel E uuid w)) =
    match profiles_api E uuid with
    | Replied _ => api_calls w ++ [clock w]
    | Rejected => api_calls w
    end.
Proof.
  split.
  - destruct (guild_api E uuid) as [|body] eqn:H.
    + by rewrite fetchGuildByUUID_rejected.
    + by rewrite (fetchGuildByUUID_replied _ _ body).
  - destruct (profiles_api E uuid) as [|body] eqn:H.
    + by rewrite fetchHighestSBLevel_rejected.
    + by rewrite (fetchHighestSBLevel_replied _ _ body).
Qed.

(** C3, as stated, fails: when [axios.get] rejects, both fetchers leave the
    counter untouched instead of incrementing it once. *)
Lemma rejected_fetch_is_not_counted :
  fetchGuildByUUID quiet steve (start_world 0) = Threw AxiosError (start_world 0)
  ∧ length (api_calls (world_of (fetchGuildByUUID quiet steve (start_world 0))))
      ≠ S (length (api_calls (start_world 0)))
  ∧ length (api_calls (world_of (fetchHighestSBLevel quiet steve (start_world 0))))
      ≠ S (length (api_calls (start_world 0))).
Proof. repeat split; vm_compute; discriminate. Qed.

(** * Guild upserts and the guild counters *)

Lemma for_of_unchecked {A} (xs : list A) (F : A → Db → Db) (w : World) :
  for_of xs (λ x, db_run_unchecked (F x)) w =
    Returned tt (with_db (λ d, foldl (λ d x, F x d) d xs) w).
Proof.
  revert w. induction xs as [|x xs IH]; intros w; simpl.
  - by destruct w as [d s q c].
  - unfold_M. simpl. rewrite IH. by destruct w.
Qed.

Lemma upsertGuild_eq (E : Env) (g : Guild) (w : World) :
  upsertGuild E g w =
    if db_fails E UpsertGuildInsert then Threw (SqliteError UpsertGuildInsert) w
    else if db_fails E UpsertFinalize
         then Threw (SqliteError UpsertFinalize) (upserted g w)
         else Returned tt (upserted g w).
Proof.
  unfold upsertGuild, mbind, M_bind, now, Date_now, gets, db_run, mret, M_ret.
  destruct (db_fails E UpsertGuildInsert); [done|]. simpl.
  rewrite for_of_unchecked. simpl.
  by destruct (db_fails E UpsertFinalize).
Qed.

Lemma upsert_members_guilds g ls d : guilds (upsert_members g ls d) = guilds d.
Proof.
  unfold upsert_members. revert d.
  induction (g_members g) as [|m ms IH]; intros d; simpl; [done | by rewrite IH].
Qed.

Lemma shift_expired_snoc (cutoff t : Z) (l : list Z) :
  cutoff ≤ t → shift_expired cutoff (l ++ [t]) = shift_expired cutoff l ++ [t].
Proof.
  intros Ht. induction l as [|x l IH]; simpl.
  - destruct (t <? cutoff) eqn:H; [lia | done].
  - by destruct (x <? cutoff).
Qed.

Lemma count_recent_snoc (t windowMs : Z) (l : list Z) :
  0 < windowMs → count_recent t windowMs (l ++ [t]) = count_recent t windowMs l + 1.
Proof.
  intros Hw. unfold count_recent. rewrite filter_app, length_app.
  rewrite filter_cons_True by lia. simpl. lia.
Qed.

(** C10: every successful [upsertGuild] adds one to [totalGuildsTracked] and
    appends one timestamp to [guildsAddedTimestamps], whether or not the
    guild already has a row; when it has one, the set of guild rows stays
    the same.  Hence [/stats] (which answers whenever its count query does
    not fail; in [index.js] it has none) reports, right after the upsert,
    [totalGuildsTracked] and [guildsAddedInLast60s] one higher than right
    before it: the two fields count upserts, not guilds. *)
Theorem upsertGuild_counts_every_upsert (E : Env) (g : Guild) (w w' : World) :
  upsertGuild E g w = Returned tt w' →
  totalGuildsTracked (stats w') = totalGuildsTracked (stats w) + 1
  ∧ guildsAddedTimestamps (stats w') = guildsAddedTimestamps (stats w) ++ [clock w]
  ∧ (is_Some (guilds (db w) !! g_id g) → dom (guilds (db w')) = dom (guilds (db w)))
  ∧ ∀ v E', (v = LevelSweeper → db_fails E' StatsCount = false) →
      ∃ sd sd0, stats_body (get_stats v E' w') = Some sd
        ∧ stats_body (get_stats v E' w) = Some sd0
        ∧ sd_totalGuildsTracked sd0 = totalGuildsTracked (stats w)
        ∧ sd_totalGuildsTracked sd = sd_totalGuildsTracked sd0 + 1
        ∧ guildsAddedInLast60s sd = guildsAddedInLast60s sd0 + 1.
Proof.
  rewrite upsertGuild_eq.
  destruct (db_fails E UpsertGuildInsert); [done|].
  destruct (db_fails E UpsertFinalize); [done|].
  intros [= <-]. split_and!.
  - done.
  - done.
  - intros Hg. simpl. rewrite upsert_members_guilds. simpl.
    unfold upsert_guild_row. rewrite dom_insert_L.
    apply elem_of_dom in Hg. apply subseteq_union_1_L.
    by apply singleton_subseteq_l.
  - intros v E' Hok. destruct v; simpl.
    + unfold countInWindow. unfold_M. simpl. eexists _, _.
      split; [done|]. split; [done|]. simpl. split; [done|]. split; [done|].
      rewrite shift_expired_snoc by lia. rewrite length_app. simpl. lia.
    + unfold_M. simpl. rewrite Hok by done. simpl. eexists _, _.
      split; [done|]. split; [done|]. simpl. split; [done|]. split; [done|].
      by apply count_recent_snoc.
Qed.

Lemma upsertGuild_counts_every_upsert_witness :
  is_Some (guilds (db world_with_A) !! g_id guild_A)
  ∧ ∃ sd sd0,
      stats_body (get_stats LevelSweeper quiet (upserted guild_A world_with_A)) = Some sd
      ∧ stats_body (get_stats LevelSweeper quiet world_with_A) = Some sd0
      ∧ sd_totalGuildsTracked sd0 = totalGuildsTracked (stats world_with_A)
      ∧ sd_totalGuildsTracked sd = sd_totalGuildsTracked sd0 + 1
      ∧ guildsAddedInLast60s sd = guildsAddedInLast60s sd0 + 1.
Proof.
  split; [by vm_compute; eexists|].
  apply (proj2 (proj2 (proj2
           (upsertGuild_counts_every_upsert quiet guild_A world_with_A
              (upserted guild_A world_with_A) ltac:(vm_compute; reflexivity))))
           LevelSweeper quiet).
  intros _. reflexivity.
Defined.

(** An upsert that is rejected only at [stmt.finalize] has written its rows
    and is counted as well. *)
Lemma upsertGuild_rejected_at_finalize_counts (E : Env) (g : Guild) (w : World) :
  db_fails E UpsertGuildInsert = false → db_fails E UpsertFinalize = true →
  upsertGuild E g w = Threw (SqliteError UpsertFinalize) (upserted g w)
  ∧ totalGuildsTracked (stats (upserted g w)) = totalGuildsTracked (stats w) + 1.
Proof. intros H1 H2. by rewrite upsertGuild_eq, H1, H2. Qed.

(** * Scans *)

Lemma scanPlayerGuild_returns v E uuid nm w :
  ∃ w', scanPlayerGuild v E uuid nm w = Returned tt w'.
Proof.
  unfold scanPlayerGuild, try_catch.
  match goal with |- context [match ?b with _ => _ end] => destruct b as [[] w'|e w'] end;
    by eexists.
Qed.

Lemma scanPlayerGuild_rejected v E uuid nm w :
  guild_api E uuid = Rejected → scanPlayerGuild v E uuid nm w = Returned tt w.
Proof.
  intros H. unfold scanPlayerGuild, try_catch, mbind, M_bind.
  by rewrite fetchGuildByUUID_rejected.
Qed.

(** The "not in a guild" branch: the counter, then the one statement on
    [players_no_guild]. *)
Lemma scanPlayerGuild_absent v E uuid nm w body :
  guild_api E uuid = Replied body →
  (if success body then guild body else None) = None →
  scanPlayerGuild v E uuid nm w =
    Returned tt
      (with_db (with_players_no_guild (upsert_no_guild v uuid nm (clock w `div` 1000)))
         (with_stats (push_hypixelApiRequest (clock w)) w)).
Proof.
  intros H Hnone. unfold scanPlayerGuild, try_catch, mbind, M_bind.
  rewrite (fetchGuildByUUID_replied _ _ body) by done. by rewrite Hnone.
Qed.

(** The steps after the fetch only write [guilds] and [members] (and the
    counters): any other part of the store stays as it is, whether they
    resolve or reject. *)
Section ScanFrame.
Context {B : Type} (part : Db → B).
Hypothesis part_members : ∀ f d, part (with_members f d) = part d.
Hypothesis part_guilds : ∀ f d, part (with_guilds f d) = part d.

Lemma fetchGuildByUUID_frame E uuid :
  preserves (λ w, part (db w)) (fetchGuildByUUID E uuid).
Proof.
  intros w. destruct (guild_api E uuid) as [|body] eqn:H.
  - by rewrite fetchGuildByUUID_rejected.
  - by rewrite (fetchGuildByUUID_replied _ _ body).
Qed.

Lemma upsert_members_frame g ls d : part (upsert_members g ls d) = part d.
Proof.
  unfold upsert_members. revert d.
  induction (g_members g) as [|m ms IH]; intros d; simpl; [done|].
  by rewrite IH, part_members.
Qed.

Lemma upsertGuild_frame E g : preserves (λ w, part (db w)) (upsertGuild E g).
Proof.
  intros w. rewrite upsertGuild_eq.
  assert (part (db (upserted g w)) = part (db w)) as Hpart.
  { simpl. by rewrite upsert_members_frame, part_guilds. }
  destruct (db_fails E UpsertGuildInsert); [done|].
  by destruct (db_fails E UpsertFinalize).
Qed.

Lemma removePlayerFromOldGuild_frame E uuid gid :
  preserves (λ w, part (db w)) (removePlayerFromOldGuild E uuid gid).
Proof.
  intros w. unfold removePlayerFromOldGuild. unfold_M.
  destruct (db_fails E RemoveSelect); [done|]. simpl.
  destruct (members (db w) !! uuid) as [r|]; [|done].
  destruct (decide (guild_id r ≠ gid)); [|done].
  destruct (db_fails E RemoveDelete); [done|]. simpl. apply part_members.
Qed.

End ScanFrame.

(** The branch for a player who is in a guild does clear the other table:
    whatever happens later in the scan, the player is no longer in
    [players_no_guild]. *)
Lemma found_scan_clears_players_no_guild v E uuid nm w body g :
  guild_api E uuid = Replied body →
  success body = true → guild body = Some g →
  players_no_guild (db (world_of (scanPlayerGuild v E uuid nm w))) !! uuid = None.
Proof.
  intros H Hs Hg. unfold scanPlayerGuild, try_catch.
  unfold mbind at 1. unfold M_bind at 1.
  rewrite (fetchGuildByUUID_replied _ _ body) by done. rewrite Hs, Hg.
  set (w1 := with_stats _ w).
  set (rest := removePlayerFromOldGuild E uuid (g_id g) ≫= λ _, upsertGuild E g).
  assert (preserves (λ w, players_no_guild (db w)) rest) as Hrest.
  { apply preserves_bind; [by apply removePlayerFromOldGuild_frame|].
    intros _. by apply upsertGuild_frame. }
  unfold mbind, M_bind, db_run_unchecked, modify.
  specialize (Hrest (with_db (with_players_no_guild (delete uuid)) w1)).
  fold (@mbind M _ bool unit) in *.
  destruct (rest _) as [[] w2|e w2]; simpl in *; rewrite Hrest; apply lookup_delete_eq.
Qed.

(** C7, as amended: a scan never rejects, whether the fetch or an awaited
    store statement fails (the error is caught at the scan-execution
    boundary); and when the fetch itself fails (transport error or non-2xx
    status) the scan leaves the whole world, so every table and every
    last-scan timestamp, as it was. *)
Theorem failed_fetch_changes_nothing (v : variant) (E : Env) (uuid : string)
    (nm : option string) (w : World) :
  (∃ w', scanPlayerGuild v E uuid nm w = Returned tt w')
  ∧ (guild_api E uuid = Rejected → scanPlayerGuild v E uuid nm w = Returned tt w).
Proof.
  split; [apply scanPlayerGuild_returns | apply scanPlayerGuild_rejected].
Qed.

Lemma failed_fetch_changes_nothing_witness :
  guild_api quiet steve = Rejected
  ∧ scanPlayerGuild LevelSweeper quiet steve None world_with_A = Returned tt world_with_A.
Proof.
  split; [reflexivity|].
  apply (proj2 (failed_fetch_changes_nothing LevelSweeper quiet steve None world_with_A)).
  reflexivity.
Defined.

(** C7, as stated, fails: the player is recorded under Alpha, the fetch
    returns Beta, the stale member row is deleted, and then the guild insert
    fails.  The error is caught, yet the member row and its last-scan
    timestamp are gone. *)
Lemma failed_upsert_is_not_rolled_back :
  let w' := world_of (scanPlayerGuild IndexJs failing_insert steve None world_with_A) in
  scanPlayerGuild IndexJs failing_insert steve None world_with_A = Returned tt w'
  ∧ guilds (db w') !! g_id guild_B = None
  ∧ last_scan <$> members (db world_with_A) !! steve = Some (Some 5000)
  ∧ members (db w') !! steve = None
  ∧ db w' ≠ db world_with_A.
Proof.
  split_and!; try (vm_compute; reflexivity).
  intros H. apply (f_equal (λ d, members d !! steve)) in H.
  vm_compute in H. discriminate.
Qed.

(** ** Membership exclusivity *)

(** C1 fails on the code, in the sweeper's file: the player has a member
    row under Alpha, the scan resolves to "no guild", and afterwards the
    player is in [members] and in [players_no_guild] at once; the branch
    returns without touching [members].  In both files the scan leaves
    [members] exactly as it was. *)
Theorem absent_scan_keeps_member_row :
  guild_id <$> members (db (world_of (scanPlayerGuild LevelSweeper (answering no_guild)
                                        steve None world_after_leaving))) !! steve
    = Some (g_id guild_A)
  ∧ ng_last_scan <$> players_no_guild
        (db (world_of (scanPlayerGuild LevelSweeper (answering no_guild)
                         steve None world_after_leaving))) !! steve
    = Some (Some 9000000)
  ∧ ∀ v, members (db (world_of (scanPlayerGuild v (answering no_guild) steve None
                                  world_after_leaving)))
         = members (db world_after_leaving).
Proof.
  split; [vm_compute; reflexivity|]. split; [vm_compute; reflexivity|].
  intros v. by rewrite (scanPlayerGuild_absent _ _ _ _ _ {| success := true; guild := None |}).
Qed.

(** The same in general: the branch leaves [members] as it is, in both
    files; in the sweeper's file it leaves a [players_no_guild] row, in
    [index.js] it leaves the whole store as it is. *)
Lemma absent_scan_members_unchanged v E uuid nm w body :
  guild_api E uuid = Replied body →
  (if success body then guild body else None) = None →
  members (db (world_of (scanPlayerGuild v E uuid nm w))) = members (db w)
  ∧ (v = LevelSweeper →
     is_Some (players_no_guild (db (world_of (scanPlayerGuild v E uuid nm w))) !! uuid))
  ∧ (v = IndexJs → db (world_of (scanPlayerGuild v E uuid nm w)) = db w).
Proof.
  intros H Hnone. rewrite (scanPlayerGuild_absent _ _ _ _ _ body) by done.
  split; [done|]. split; intros ->; simpl; unfold upsert_no_guild.
  - rewrite lookup_insert_eq. by eexists.
  - by destruct (db w).
Qed.

(** ** [GET /unguilded] *)


(** No scan writes the table the endpoint reads. *)
Lemma scan_preserves_unguilded_players v E uuid nm :
  preserves (λ w, unguilded_players (db w)) (scanPlayerGuild v E uuid nm).
Proof.
  unfold scanPlayerGuild. apply preserves_try_catch; [|intros; apply preserves_ret].
  apply preserves_bind; [by apply fetchGuildByUUID_frame|].
  intros [g|].
  - apply preserves_bind; [by intros w|]. intros _.
    apply preserves_bind; [by apply removePlayerFromOldGuild_frame|]. intros _.
    by apply upsertGuild_frame.
  - apply preserves_bind; [by intros w|]. intros n. by intros w.
Qed.

(** * The TTL check of [POST /player] *)

(** The handler consults the member row when there is one and the
    [players_no_guild] row otherwise.  When the consulted row has a
    nonzero last-scan timestamp within the TTL and the lookups succeed, the
    handler answers "recently scanned" and leaves the store, the queue and
    the counters as they were. *)
Theorem post_player_recent_is_noop (v : variant) (E : Env) (uuid : string) (w : World) :
  uuid ≠ "" →
  (∀ s, db_fails E s = false) →
  (∀ m s,
      members (db w) !! strip_hyphens uuid = Some m →
      last_scan m = Some s → s ≠ 0 → clock w `div` 1000 - s ≤ SEVEN_DAYS v →
      post_player v E (Some uuid) w
        = Returned (Json 200 "Guild recently scanned, no update needed.") w)
  ∧ (∀ p s,
      members (db w) !! strip_hyphens uuid = None →
      players_no_guild (db w) !! strip_hyphens uuid = Some p →
      ng_last_scan p = Some s → s ≠ 0 → clock w `div` 1000 - s ≤ SEVEN_DAYS v →
      post_player v E (Some uuid) w
        = Returned (Json 200 "Player recently scanned, no update needed.") w).
Proof.
  intros Hne Hok. destruct uuid as [|c rest]; [done|].
  set (u := strip_hyphens (String c rest)).
  assert (Hfresh : ∀ s, s ≠ 0 → clock w `div` 1000 - s ≤ SEVEN_DAYS v →
                        stale v (Some s) (clock w `div` 1000) = false).
  { intros s Hs Hle. unfold stale.
    destruct (s =? 0) eqn:H0; [lia|].
    destruct (SEVEN_DAYS v <? clock w `div` 1000 - s) eqn:H1; [lia | done]. }
  split.
  - intros m s Hm Hs Hnz Hle. unfold post_player. fold u. rewrite Hok.
    unfold_M. rewrite Hm. simpl. rewrite Hs. by rewrite Hfresh.
  - intros p s Hm Hp Hs Hnz Hle. unfold post_player. fold u. rewrite !Hok.
    unfold_M. rewrite Hm. simpl. rewrite Hp. simpl. rewrite Hs. by rewrite Hfresh.
Qed.

Lemma post_player_recent_is_noop_witness :
  last_scan <$> members (db world_with_A) !! strip_hyphens "1111-2222-3333"
    = Some (Some 5000)
  ∧ post_player LevelSweeper quiet (Some "1111-2222-3333") world_with_A
    = Returned (Json 200 "Guild recently scanned, no update needed.") world_with_A.
Proof.
  split; [vm_compute; reflexivity|].
  refine (proj1 (post_player_recent_is_noop LevelSweeper quiet "1111-2222-3333"
                   world_with_A _ _)
            {| guild_id := "aaaaaaaaaaaaaaaaaaaaaaaa"; rank := "Member";
               last_scan := Some 5000; highest_sb_level := None;
               level_last_updated := None |} 5000 _ _ _ _).
  - discriminate.
  - intros s. reflexivity.
  - vm_compute. reflexivity.
  - reflexivity.
  - lia.
  - vm_compute. discriminate.
Defined.

(** C8 fails on the code, in the sweeper's file, in a store the program
    reaches by itself (a scan finds Alpha, a later scan finds no guild and
    leaves the member row behind): the player has a [players_no_guild] row
    scanned a second ago, and also the member row of the guild they left,
    scanned long ago.  The handler consults the member row and queues a
    scan. *)
Theorem recent_unresolved_row_is_overruled :
  players_no_guild (db world_both_rows) !! steve
    = Some {| ng_name := None; ng_last_scan := Some 9000000 |}
  ∧ 9000000 ≠ 0
  ∧ clock world_both_rows `div` 1000 - 9000000 ≤ SEVEN_DAYS LevelSweeper
  ∧ post_player LevelSweeper quiet (Some steve) world_both_rows
    = Returned (Json 200 "Queued guild scan for guild aaaaaaaaaaaaaaaaaaaaaaaa")
               (with_queue (λ q, q ++ [steve]) world_both_rows)
  ∧ queue (with_queue (λ q, q ++ [steve]) world_both_rows) ≠ queue world_both_rows.
Proof.
  split_and!; try (vm_compute; reflexivity); try done.
Qed.

(** On a store that keeps the two tables exclusive for the player, a row
    with a nonzero last-scan timestamp within the TTL does stop the scan. *)
Lemma recent_row_is_noop_when_exclusive (v : variant) (E : Env) (uuid : string)
    (w : World) (s : Z) :
  uuid ≠ "" → healthy E →
  (members (db w) !! strip_hyphens uuid = None
   ∨ players_no_guild (db w) !! strip_hyphens uuid = None) →
  ((∃ m, members (db w) !! strip_hyphens uuid = Some m ∧ last_scan m = Some s)
   ∨ (∃ p, players_no_guild (db w) !! strip_hyphens uuid = Some p
           ∧ ng_last_scan p = Some s)) →
  s ≠ 0 → clock w `div` 1000 - s ≤ SEVEN_DAYS v →
  ∃ msg, post_player v E (Some uuid) w = Returned (Json 200 msg) w
    ∧ (msg = "Guild recently scanned, no update needed."
       ∨ msg = "Player recently scanned, no update needed.").
Proof.
  intros Hne Hok Hexcl Hrow Hs Hle.
  destruct (post_player_recent_is_noop v E uuid w Hne Hok) as [Hmem Hpng].
  destruct Hrow as [(m & Hm & Hls)|(p & Hp & Hls)].
  - eexists. split; [by eapply Hmem | by left].
  - destruct Hexcl as [Hnone|Hnone]; [|congruence].
    eexists. split; [by eapply Hpng | by right].
Qed.

(** * The secondary metric *)

Lemma level_gt_true a b : level_gt a b = true → (b < a)%Q.
Proof.
  unfold level_gt. intros H. apply negb_true_iff in H.
  apply Qnot_le_lt. intros Hle. apply Qle_bool_iff in Hle. congruence.
Qed.

Lemma level_gt_false a b : level_gt a b = false → (a <= b)%Q.
Proof.
  unfold level_gt. intros H. apply negb_false_iff in H. by apply Qle_bool_iff.
Qed.

Lemma highest_step_ge uuid acc p : (acc <= highest_step uuid acc p)%Q.
Proof.
  unfold highest_step. destruct (profile_experience uuid p) as [xp|]; [|apply Qle_refl].
  destruct (xp =? 0); [apply Qle_refl|].
  destruct (level_gt (level_of_xp xp) acc) eqn:H; [|apply Qle_refl].
  apply Qlt_le_weak. by apply level_gt_true.
Qed.

Lemma highest_step_bounds uuid acc p xp :
  (0 <= acc)%Q → profile_experience uuid p = Some xp →
  (level_of_xp xp <= highest_step uuid acc p)%Q.
Proof.
  intros Hacc Hxp. unfold highest_step. rewrite Hxp.
  destruct (xp =? 0) eqn:H0.
  - apply Z.eqb_eq in H0. subst xp.
    unfold Qle, level_of_xp in *. simpl in *. lia.
  - destruct (level_gt (level_of_xp xp) acc) eqn:H; [apply Qle_refl|].
    by apply level_gt_false.
Qed.

Lemma highest_step_choice uuid acc p :
  highest_step uuid acc p = acc
  ∨ ∃ xp, profile_experience uuid p = Some xp ∧ highest_step uuid acc p = level_of_xp xp.
Proof.
  unfold highest_step. destruct (profile_experience uuid p) as [xp|]; [|by left].
  destruct (xp =? 0); [by left|].
  destruct (level_gt (level_of_xp xp) acc); [right; by exists xp | by left].
Qed.

Lemma foldl_highest_step uuid (profiles : list (option Profile)) (acc : Q) :
  (0 <= acc)%Q →
  (acc <= foldl (highest_step uuid) acc profiles)%Q
  ∧ (∀ p xp, p ∈ profiles → profile_experience uuid p = Some xp →
       (level_of_xp xp <= foldl (highest_step uuid) acc profiles)%Q)
  ∧ (foldl (highest_step uuid) acc profiles = acc
     ∨ ∃ p xp, p ∈ profiles ∧ profile_experience uuid p = Some xp
         ∧ foldl (highest_step uuid) acc profiles = level_of_xp xp).
Proof.
  revert acc. induction profiles as [|q qs IH]; intros acc Hacc; simpl.
  - split; [apply Qle_refl|]. split; [|by left].
    intros p xp Hin. by apply elem_of_nil in Hin.
  - pose proof (highest_step_ge uuid acc q) as Hge.
    destruct (IH (highest_step uuid acc q)) as (IH1 & IH2 & IH3);
      [by eapply Qle_trans|].
    split; [by eapply Qle_trans|]. split.
    + intros p xp Hin Hxp. apply elem_of_cons in Hin as [->|Hin].
      * eapply Qle_trans; [by apply highest_step_bounds | done].
      * by eapply IH2.
    + destruct IH3 as [Heq|(p & xp & Hin & Hxp & Heq)].
      * rewrite Heq. destruct (highest_step_choice uuid acc q) as [?|(xp & Hxp & Hs)].
        -- by left.
        -- right. exists q, xp. split; [apply list_elem_of_here | done].
      * right. exists p, xp. split; [by apply list_elem_of_further | done].
Qed.

(** C9, as amended: [fetchHighestSBLevel] returns [null] when the request is
    rejected, when the reply reports [success: false] (with or without
    profiles) or when its [profiles] field is [null].  When the reply reports
    success and carries a profiles array, it returns a level that is at
    least [xp / 100] for every profile that carries experience for the
    player, and that is [xp / 100] of one of them, or [0], the value the loop
    starts from, when none of them is above [0]; for an empty array that is
    [0]. *)
Theorem fetchHighestSBLevel_returns_highest (E : Env) (uuid : string) (w : World) :
  ((profiles_api E uuid = Rejected
    ∨ ∃ body, profiles_api E uuid = Replied body
              ∧ (pb_success body = false ∨ pb_profiles body = None)) →
   ∃ w', fetchHighestSBLevel E uuid w = Returned None w')
  ∧ (∀ body profiles,
       profiles_api E uuid = Replied body →
       pb_success body = true → pb_profiles body = Some profiles →
       ∃ r w', fetchHighestSBLevel E uuid w = Returned (Some r) w'
         ∧ (0 <= r)%Q
         ∧ (∀ p xp, p ∈ profiles → profile_experience uuid p = Some xp →
              (Qmake xp 100 <= r)%Q)
         ∧ (r = Qmake 0 1
            ∨ ∃ p xp, p ∈ profiles ∧ profile_experience uuid p = Some xp
                ∧ r = Qmake xp 100)
         ∧ (profiles = [] → r = Qmake 0 1)).
Proof.
  split.
  - intros [Hrej|(body & Hreply & Hno)].
    + rewrite fetchHighestSBLevel_rejected by done. by eexists.
    + rewrite (fetchHighestSBLevel_replied _ _ body) by done. eexists.
      destruct Hno as [-> | ->]; [done|]. by destruct (pb_success body).
  - intros body profiles Hreply Hs Hps.
    rewrite (fetchHighestSBLevel_replied _ _ body) by done. rewrite Hs, Hps. simpl.
    destruct (foldl_highest_step uuid profiles 0%Q) as (H1 & H2 & H3); [apply Qle_refl|].
    exists (highest_level uuid profiles). eexists. split; [done|].
    split; [done|]. split; [exact H2|]. split; [exact H3|].
    by intros ->.
Qed.

Lemma fetchHighestSBLevel_returns_highest_witness :
  ∃ r w', fetchHighestSBLevel levels_env steve world_with_A = Returned (Some r) w'
    ∧ (0 <= r)%Q
    ∧ (Qmake 12345 100 <= r)%Q.
Proof.
  destruct (proj2 (fetchHighestSBLevel_returns_highest levels_env steve world_with_A)
              _ _ eq_refl eq_refl eq_refl)
    as (r & w' & Hrun & Hpos & Hmax & _).
  exists r, w'. split; [exact Hrun|]. split; [exact Hpos|].
  apply (Hmax (Some {| pf_members :=
     Some {[ steve := {| leveling := Some {| experience := Some 12345 |} |} ]} |})).
  - apply list_elem_of_here.
  - vm_compute. reflexivity.
Defined.

(** C9, as stated, fails twice.  A reply that reports success and no
    profile at all (an empty array) does not give [null] but level [0]; and a
    reply that carries a profile with experience but reports [success: false]
    does not give the highest level but [null]. *)
Lemma profiles_reply_edge_cases :
  fetchHighestSBLevel empty_profiles_env steve (start_world 0)
    = Returned (Some (Qmake 0 1))
               (with_stats (push_hypixelApiRequest 0) (start_world 0))
  ∧ fetchHighestSBLevel unsuccessful_profiles_env steve (start_world 0)
    = Returned None (with_stats (push_hypixelApiRequest 0) (start_world 0)).
Proof. split; vm_compute; reflexivity. Qed.

(** * The sweeper *)

(** What the sweeper does, and however it ends, it only writes the member
    table, the counters and the clock. *)
Section SweeperFrame.
Context {B : Type} (proj : World → B).
Hypothesis proj_stats : ∀ f w, proj (with_stats f w) = proj w.
Hypothesis proj_members : ∀ f w, proj (with_db (with_members f) w) = proj w.
Hypothesis proj_clock : ∀ f w, proj (with_clock f w) = proj w.

Lemma fetchHighestSBLevel_preserves E uuid :
  preserves proj (fetchHighestSBLevel E uuid).
Proof.
  intros w. destruct (profiles_api E uuid) as [|body] eqn:H.
  - by rewrite fetchHighestSBLevel_rejected.
  - rewrite (fetchHighestSBLevel_replied _ _ body) by done. apply proj_stats.
Qed.

Lemma updateMemberLevel_preserves E uuid :
  preserves proj (updateMemberLevel E uuid).
Proof.
  unfold updateMemberLevel.
  apply preserves_bind; [apply preserves_gets|]. intros nowTime.
  apply preserves_bind.
  { unfold db_get. apply preserves_if; [apply preserves_throw | apply preserves_gets]. }
  intros row. apply preserves_if; [apply preserves_ret|].
  apply preserves_bind; [apply fetchHighestSBLevel_preserves|].
  intros [lvl|]; [|apply preserves_ret].
  apply preserves_modify. intros w. apply proj_members.
Qed.

Lemma processGuildLevels_preserves E : preserves proj (processGuildLevels E).
Proof.
  unfold processGuildLevels. apply preserves_if; [apply preserves_ret|].
  apply preserves_bind; [apply preserves_gets|]. intros rows.
  apply preserves_for_of. intros row.
  apply preserves_bind; [apply updateMemberLevel_preserves|]. intros _.
  apply preserves_bind; [apply preserves_throw|]. intros _.
  apply preserves_modify. intros w. apply proj_clock.
Qed.
End SweeperFrame.

(** C5, as amended: the sweeper never submits a task to the scan queue.
    [processGuildLevels] and [updateMemberLevel] leave the queue as it is,
    and [updateMemberLevel] calls [fetchHighestSBLevel] itself for a member
    whose level is not fresh: the request is recorded by the API-call counter
    during the sweep. *)
Theorem sweeper_bypasses_queue (E : Env) (w : World) :
  queue (world_of (processGuildLevels E w)) = queue w
  ∧ ∀ uuid,
      queue (world_of (updateMemberLevel E uuid w)) = queue w
      ∧ (db_fails E LevelSelect = false →
         level_is_fresh (members (db w) !! uuid) (clock w) = false →
         api_calls (world_of (updateMemberLevel E uuid w)) =
           match profiles_api E uuid with
           | Replied _ => api_calls w ++ [clock w]
           | Rejected => api_calls w
           end).
Proof.
  split; [by apply (processGuildLevels_preserves queue)|].
  intros uuid. split; [by apply (updateMemberLevel_preserves queue)|].
  intros Hok Hfresh.
  unfold updateMemberLevel, db_get, Date_now, gets, mbind, M_bind.
  rewrite Hok, Hfresh.
  destruct (profiles_api E uuid) as [|body] eqn:H.
  - by rewrite fetchHighestSBLevel_rejected.
  - rewrite (fetchHighestSBLevel_replied _ _ body) by done.
    destruct (pb_success body); [|done]. by destruct (pb_profiles body).
Qed.

Lemma sweeper_bypasses_queue_witness :
  level_is_fresh (members (db world_with_B) !! steve) (clock world_with_B) = false
  ∧ api_calls (world_of (updateMemberLevel levels_env steve world_with_B))
    = api_calls world_with_B ++ [clock world_with_B].
Proof.
  split; [vm_compute; reflexivity|].
  apply (proj2 (proj2 (sweeper_bypasses_queue levels_env world_with_B) steve)).
  - reflexivity.
  - vm_compute. reflexivity.
Defined.

(** C5, as stated, fails: nothing is pending in the queue and nothing is
    submitted to it, and yet the sweep has called the remote API. *)
Lemma sweeper_fetches_outside_queue :
  let w' := world_of (processGuildLevels levels_env world_with_B) in
  queue world_with_B = []
  ∧ queue w' = []
  ∧ api_calls world_with_B = [5000000]
  ∧ api_calls w' = [5000000; 5000000]
  ∧ highest_sb_level <$> members (db w') !! steve = Some (Some (level_of_xp 12345)).
Proof. split_and!; vm_compute; reflexivity. Qed.

(** C6 fails on the code: the sweep refreshes the level of the first member
    of its batch and then calls [recalcGuildAverage], which does not exist.
    The promise rejects with a [ReferenceError]; no average is stored for
    the guild. *)
Theorem sweep_stops_at_recalcGuildAverage :
  let w' := world_of (processGuildLevels levels_env world_with_B) in
  sweep_batch (db world_with_B) = [(steve, g_id guild_B)]
  ∧ processGuildLevels levels_env world_with_B
    = Threw (ReferenceError "recalcGuildAverage") w'
  ∧ highest_sb_level <$> members (db w') !! steve = Some (Some (level_of_xp 12345))
  ∧ avg_sb_level <$> guilds (db w') !! g_id guild_B = Some None.
Proof. split_and!; vm_compute; reflexivity. Qed.

(** The same in general: no sweep writes the guild table. *)
Lemma sweep_preserves_guilds E :
  preserves (λ w, guilds (db w)) (processGuildLevels E).
Proof. by apply processGuildLevels_preserves. Qed.

(** With more than one row in the batch, the rows after the first are never
    reached. *)
Lemma sweep_abandons_rest :
  let w' := world_of (processGuildLevels levels_env world_with_A) in
  length (sweep_batch (db world_with_A)) = 2%nat
  ∧ length (filter (λ r, is_Some (level_last_updated r.2))
                   (map_to_list (members (db w')))) = 1%nat.
Proof. split; vm_compute; reflexivity. Qed.

(** * More about the reconciliation *)

Lemma strip_hyphens_no_hyphen s : "-"%char ∉ list_ascii_of_string (strip_hyphens s).
Proof.
  induction s as [|c s IH]; simpl.
  - apply not_elem_of_nil.
  - destruct (Ascii.eqb c "-") eqn:H; [done|]. simpl.
    apply not_elem_of_cons. split; [|done].
    intros <-. by rewrite Ascii.eqb_refl in H.
Qed.

Lemma strip_hyphens_idemp s : strip_hyphens (strip_hyphens s) = strip_hyphens s.
Proof.
  induction s as [|c s IH]; simpl; [done|].
  destruct (Ascii.eqb c "-") eqn:H; [done|]. simpl. by rewrite H, IH.
Qed.

(** X1: the normalised form of an identifier holds no hyphen, and
    normalising it again changes nothing. *)
Theorem strip_hyphens_normal_form (s : string) :
  ("-"%char ∉ list_ascii_of_string (strip_hyphens s))
  ∧ strip_hyphens (strip_hyphens s) = strip_hyphens s.
Proof. split; [apply strip_hyphens_no_hyphen | apply strip_hyphens_idemp]. Qed.

(** The member row the roster loop leaves for any identifier. *)
Lemma lookup_upsert_members g ls d u :
  members (upsert_members g ls d) !! u =
    match last_rank u (g_members g) with
    | Some rk => Some {| guild_id := g_id g; rank := rk; last_scan := Some ls;
                         highest_sb_level := members d !! u ≫= highest_sb_level;
                         level_last_updated := members d !! u ≫= level_last_updated |}
    | None => members d !! u
    end.
Proof.
  unfold upsert_members. revert d.
  induction (g_members g) as [|m ms IH]; intros d; simpl; [done|].
  rewrite IH. simpl. unfold upsert_member_row.
  destruct (decide (strip_hyphens (gm_uuid m) = u)) as [->|Hne].
  - rewrite lookup_insert_eq. by destruct (last_rank _ ms).
  - rewrite lookup_insert_ne by done. by destruct (last_rank u ms).
Qed.

Lemma last_rank_is_Some u roster :
  is_Some (last_rank u roster) ↔ u ∈ (λ m, strip_hyphens (gm_uuid m)) <$> roster.
Proof.
  induction roster as [|m ms IH]; simpl.
  - split; [by intros [? ?] | by intros ?%elem_of_nil].
  - rewrite elem_of_cons, <- IH. destruct (last_rank u ms) as [rk|].
    + split; [intros _; right|]; by eexists.
    + destruct (decide (strip_hyphens (gm_uuid m) = u)) as [->|Hne].
      * split; [by left | by eexists].
      * split; [by intros [? ?] | intros [?|[? ?]]; congruence].
Qed.

Lemma guilds_upserted g w :
  guilds (db (upserted g w)) = upsert_guild_row g (clock w `div` 1000) (guilds (db w)).
Proof. simpl. by rewrite upsert_members_guilds. Qed.

Lemma world_of_upsertGuild E g w :
  world_of (upsertGuild E g w) = w ∨ world_of (upsertGuild E g w) = upserted g w.
Proof.
  rewrite upsertGuild_eq. destruct (db_fails E UpsertGuildInsert); [by left|].
  destruct (db_fails E UpsertFinalize); by right.
Qed.

(** X2: a successful [upsertGuild] records every member of the fetched
    roster, under the normalised identifier, as a member of the fetched guild
    scanned now. *)
Theorem upsertGuild_records_roster (E : Env) (g : Guild) (w w' : World) (u : string) :
  upsertGuild E g w = Returned tt w' →
  u ∈ roster_uuids g →
  ∃ row, members (db w') !! u = Some row
    ∧ guild_id row = g_id g
    ∧ last_scan row = Some (clock w `div` 1000).
Proof.
  rewrite upsertGuild_eq.
  destruct (db_fails E UpsertGuildInsert); [done|].
  destruct (db_fails E UpsertFinalize); [done|].
  intros [= <-] Hin. apply last_rank_is_Some in Hin as [rk Hrk].
  simpl. rewrite lookup_upsert_members, Hrk. by eexists.
Qed.

Lemma upsertGuild_records_roster_witness :
  ∃ row, members (db (upserted guild_A (start_world 7000))) !! steve = Some row
    ∧ guild_id row = g_id guild_A
    ∧ last_scan row = Some 7.
Proof.
  apply (upsertGuild_records_roster quiet guild_A (start_world 7000)
           (upserted guild_A (start_world 7000)) steve).
  - vm_compute. reflexivity.
  - vm_compute. apply list_elem_of_here.
Defined.

(** X3: [upsertGuild] only grows the roster.  However it ends, every member
    row that existed is still there, a row whose identifier is not in the
    fetched roster is unchanged (also when it belongs to the same guild),
    every other guild's row is unchanged, and [players_no_guild] is
    unchanged. *)
Theorem upsertGuild_only_adds (E : Env) (g : Guild) (w : World) :
  let w' := world_of (upsertGuild E g w) in
  (∀ u, is_Some (members (db w) !! u) → is_Some (members (db w') !! u))
  ∧ (∀ u, u ∉ roster_uuids g → members (db w') !! u = members (db w) !! u)
  ∧ (∀ gid, gid ≠ g_id g → guilds (db w') !! gid = guilds (db w) !! gid)
  ∧ players_no_guild (db w') = players_no_guild (db w).
Proof.
  simpl. destruct (world_of_upsertGuild E g w) as [->| ->]; [done|].
  split_and!.
  - intros u Hu. simpl. rewrite lookup_upsert_members.
    by destruct (last_rank u (g_members g)).
  - intros u Hu. simpl. rewrite lookup_upsert_members.
    destruct (last_rank u (g_members g)) as [rk|] eqn:Hrk; [|done].
    exfalso. apply Hu. apply last_rank_is_Some. by eexists.
  - intros gid Hne. rewrite guilds_upserted. unfold upsert_guild_row.
    by rewrite lookup_insert_ne.
  - simpl. by rewrite (upsert_members_frame players_no_guild).
Qed.

(** X4: [upsertGuild] never wipes level data.  However it ends, a member
    row that existed keeps its [highest_sb_level] and [level_last_updated],
    and the guild's row, if it existed, keeps its [avg_sb_level]. *)
Theorem upsertGuild_keeps_levels (E : Env) (g : Guild) (w : World) :
  let w' := world_of (upsertGuild E g w) in
  (∀ u row, members (db w) !! u = Some row →
     ∃ row', members (db w') !! u = Some row'
       ∧ highest_sb_level row' = highest_sb_level row
       ∧ level_last_updated row' = level_last_updated row)
  ∧ (∀ row, guilds (db w) !! g_id g = Some row →
     ∃ row', guilds (db w') !! g_id g = Some row'
       ∧ avg_sb_level row' = avg_sb_level row).
Proof.
  simpl. destruct (world_of_upsertGuild E g w) as [->| ->].
  { split; [intros u row ?|intros row ?]; by exists row. }
  split.
  - intros u row Hrow. simpl. rewrite lookup_upsert_members. simpl. rewrite Hrow.
    destruct (last_rank u (g_members g)); by eexists.
  - intros row Hrow. rewrite guilds_upserted. unfold upsert_guild_row.
    rewrite lookup_insert_eq, Hrow. by eexists.
Qed.

Lemma upsertGuild_keeps_levels_witness :
  ∃ row', members (db (world_of (upsertGuild quiet guild_B
                        (world_of (updateMemberLevel levels_env steve world_with_B)))))
            !! steve = Some row'
    ∧ highest_sb_level row' = Some (level_of_xp 12345)
    ∧ level_last_updated row' = Some 5000000.
Proof.
  apply (proj1 (upsertGuild_keeps_levels quiet guild_B
           (world_of (updateMemberLevel levels_env steve world_with_B))) steve
           {| guild_id := g_id guild_B; rank := "Officer"; last_scan := Some 5000;
              highest_sb_level := Some (level_of_xp 12345);
              level_last_updated := Some 5000000 |}).
  vm_compute. reflexivity.
Defined.

Lemma upserted_again g w t :
  db (upserted g (with_clock (λ _, t) (upserted g w)))
  = db (upserted g (with_clock (λ _, t) w)).
Proof.
  set (w1 := upserted g w).
  assert (guilds (db (upserted g (with_clock (λ _, t) w1)))
          = guilds (db (upserted g (with_clock (λ _, t) w)))) as Hg.
  { rewrite !guilds_upserted. unfold w1. cbn [db with_clock clock].
    rewrite guilds_upserted. unfold upsert_guild_row.
    rewrite lookup_insert_eq. simpl. apply insert_insert_eq. }
  assert (members (db (upserted g (with_clock (λ _, t) w1)))
          = members (db (upserted g (with_clock (λ _, t) w)))) as Hm.
  { apply map_eq. intros u. unfold w1. simpl. rewrite !lookup_upsert_members. simpl.
    rewrite !lookup_upsert_members. simpl.
    destruct (last_rank u (g_members g)); [|done]. simpl.
    by destruct (members (db w) !! u). }
  assert (players_no_guild (db (upserted g (with_clock (λ _, t) w1)))
          = players_no_guild (db (upserted g (with_clock (λ _, t) w)))) as Hp.
  { unfold w1. simpl. rewrite (upsert_members_frame players_no_guild) by done. simpl.
    by rewrite !(upsert_members_frame players_no_guild). }
  assert (unguilded_players (db (upserted g (with_clock (λ _, t) w1)))
          = unguilded_players (db (upserted g (with_clock (λ _, t) w)))) as Hu.
  { unfold w1. simpl. rewrite (upsert_members_frame unguilded_players) by done. simpl.
    by rewrite !(upsert_members_frame unguilded_players). }
  destruct (db (upserted g (with_clock (λ _, t) w1))),
           (db (upserted g (with_clock (λ _, t) w))); simpl in *.
  by subst.
Qed.

(** X5: upserting the same guild data again, at clock reading [t], leaves
    the store exactly as a single upsert at [t] would have: the second
    upsert adds no row and only moves the last-scan timestamps. *)
Theorem upsertGuild_again_same_store (E E' : Env) (g : Guild) (w w1 w2 : World) (t : Z) :
  upsertGuild E g w = Returned tt w1 →
  upsertGuild E' g (with_clock (λ _, t) w1) = Returned tt w2 →
  db w2 = db (upserted g (with_clock (λ _, t) w)).
Proof.
  rewrite !upsertGuild_eq.
  destruct (db_fails E UpsertGuildInsert); [done|].
  destruct (db_fails E UpsertFinalize); [done|].
  destruct (db_fails E' UpsertGuildInsert); [done|].
  destruct (db_fails E' UpsertFinalize); [done|].
  intros [= <-] [= <-]. apply upserted_again.
Qed.

Lemma upsertGuild_again_same_store_witness :
  db (upserted guild_A (with_clock (λ _, 9000) (upserted guild_A world_with_B)))
  = db (upserted guild_A (with_clock (λ _, 9000) world_with_B)).
Proof.
  apply (upsertGuild_again_same_store quiet quiet guild_A world_with_B
           (upserted guild_A world_with_B)
           (upserted guild_A (with_clock (λ _, 9000) (upserted guild_A world_with_B)))
           9000);
    vm_compute; reflexivity.
Defined.

(** X6: when [removePlayerFromOldGuild] resolves, it resolves with [true]
    exactly when the player had a member row under another guild; afterwards
    the player has no member row under another guild, every other player's
    row is as before, and when it resolves with [false] nothing changed. *)
Theorem removePlayerFromOldGuild_reconciles (E : Env) (uuid gid : string)
    (w w' : World) (b : bool) :
  removePlayerFromOldGuild E uuid gid w = Returned b w' →
  (b = true ↔ ∃ r, members (db w) !! uuid = Some r ∧ guild_id r ≠ gid)
  ∧ (∀ r, members (db w') !! uuid = Some r → guild_id r = gid)
  ∧ (∀ u, u ≠ uuid → members (db w') !! u = members (db w) !! u)
  ∧ (b = false → w' = w).
Proof.
  unfold removePlayerFromOldGuild. unfold_M.
  destruct (db_fails E RemoveSelect); [done|]. simpl.
  destruct (members (db w) !! uuid) as [r|] eqn:Hrow.
  - destruct (decide (guild_id r ≠ gid)) as [Hne|Heq].
    + destruct (db_fails E RemoveDelete); [done|]. simpl. intros [= <- <-].
      split_and!.
      * split; [intros _; by exists r | done].
      * intros r'. simpl. by rewrite lookup_delete_eq.
      * intros u Hu. simpl. by rewrite lookup_delete_ne.
      * done.
    + intros [= <- <-]. apply dec_stable in Heq. split_and!.
      * split; [done | intros (r' & [= <-] & Hne); done].
      * intros r'. rewrite Hrow. by intros [= <-].
      * done.
      * done.
  - intros [= <- <-]. split_and!.
    + split; [done | by intros (r' & ? & _)].
    + intros r'. by rewrite Hrow.
    + done.
    + done.
Qed.

Lemma removePlayerFromOldGuild_reconciles_witness :
  ∃ r, members (db world_with_A) !! steve = Some r ∧ guild_id r ≠ g_id guild_B.
Proof.
  apply (proj1 (proj1 (removePlayerFromOldGuild_reconciles quiet steve (g_id guild_B)
           world_with_A
           (world_of (removePlayerFromOldGuild quiet steve (g_id guild_B) world_with_A))
           true ltac:(vm_compute; reflexivity)))).
  reflexivity.
Defined.

(** What a scan that found a guild has done when no statement failed: the
    reconciliation, then the upsert. *)
Lemma scanPlayerGuild_found v E uuid nm w body g :
  healthy E →
  guild_api E uuid = Replied body → success body = true → guild body = Some g →
  ∃ w1, scanPlayerGuild v E uuid nm w = Returned tt (upserted g w1)
    ∧ clock w1 = clock w
    ∧ guilds (db w1) = guilds (db w)
    ∧ players_no_guild (db w1) = delete uuid (players_no_guild (db w))
    ∧ (∀ u, u ≠ uuid → members (db w1) !! u = members (db w) !! u)
    ∧ (members (db w1) !! uuid =
         match members (db w) !! uuid with
         | Some r => if decide (guild_id r ≠ g_id g) then None else Some r
         | None => None
         end)
    ∧ stats w1 = push_hypixelApiRequest (clock w) (stats w).
Proof.
  intros Hok Hreply Hs Hg. unfold scanPlayerGuild, try_catch.
  unfold mbind at 1. unfold M_bind at 1.
  rewrite (fetchGuildByUUID_replied _ _ body) by done. rewrite Hs, Hg.
  unfold removePlayerFromOldGuild. unfold_M. rewrite !Hok. simpl.
  destruct (members (db w) !! uuid) as [r|] eqn:Hrow.
  - destruct (decide (guild_id r ≠ g_id g)) as [Hne|Heq].
    + rewrite ?Hok. simpl.
      match goal with |- context [upsertGuild E g ?x] => set (w1 := x) end.
      exists w1. rewrite upsertGuild_eq, !Hok. split; [done|].
      split_and!; try done.
      * intros u Hu. simpl. by rewrite lookup_delete_ne.
      * simpl. by rewrite lookup_delete_eq.
    + match goal with |- context [upsertGuild E g ?x] => set (w1 := x) end.
      exists w1. rewrite upsertGuild_eq, !Hok. split; [done|].
      by split_and!.
  - match goal with |- context [upsertGuild E g ?x] => set (w1 := x) end.
    exists w1. rewrite upsertGuild_eq, !Hok. split; [done|].
    by split_and!.
Qed.

(** X7: after a scan that found the player in guild [g] (the player is in
    the fetched roster, no statement failed), the player has a member row
    under [g] scanned now and no [players_no_guild] row, whatever the store
    said about the player before. *)
Theorem found_scan_records_membership (v : variant) (E : Env) (uuid : string)
    (nm : option string) (w : World) (body : GuildBody) (g : Guild) :
  healthy E →
  guild_api E uuid = Replied body → success body = true → guild body = Some g →
  uuid ∈ roster_uuids g →
  let w' := world_of (scanPlayerGuild v E uuid nm w) in
  (∃ row, members (db w') !! uuid = Some row
     ∧ guild_id row = g_id g
     ∧ last_scan row = Some (clock w `div` 1000))
  ∧ players_no_guild (db w') !! uuid = None.
Proof.
  intros Hok Hreply Hs Hg Hin.
  destruct (scanPlayerGuild_found v E uuid nm w body g) as (w1 & -> & Hc & _ & Hp & _);
    try done.
  simpl. split.
  - apply last_rank_is_Some in Hin as [rk Hrk].
    rewrite lookup_upsert_members, Hrk, Hc. by eexists.
  - rewrite (upsert_members_frame players_no_guild) by done. simpl.
    rewrite Hp. apply lookup_delete_eq.
Qed.

Lemma found_scan_records_membership_witness :
  (∃ row, members (db (world_of (scanPlayerGuild IndexJs (answering (in_guild guild_B))
                                   steve None world_both_rows))) !! steve = Some row
     ∧ guild_id row = g_id guild_B
     ∧ last_scan row = Some (clock world_both_rows `div` 1000))
  ∧ players_no_guild (db (world_of (scanPlayerGuild IndexJs (answering (in_guild guild_B))
                                      steve None world_both_rows))) !! steve = None.
Proof.
  apply (found_scan_records_membership IndexJs (answering (in_guild guild_B)) steve None
           world_both_rows {| success := true; guild := Some guild_B |} guild_B).
  - intros s. reflexivity.
  - reflexivity.
  - reflexivity.
  - reflexivity.
  - vm_compute. apply list_elem_of_here.
Defined.

(** X8: a scan that finds the player in a guild other than the recorded
    one starts the player's level data afresh ([highest_sb_level] and
    [level_last_updated] are [NULL] afterwards), while a scan that finds the
    recorded guild keeps both. *)
Theorem found_scan_levels (v : variant) (E : Env) (uuid : string)
    (nm : option string) (w : World) (body : GuildBody) (g : Guild) (old : MemberRow) :
  healthy E →
  guild_api E uuid = Replied body → success body = true → guild body = Some g →
  uuid ∈ roster_uuids g →
  members (db w) !! uuid = Some old →
  ∃ row, members (db (world_of (scanPlayerGuild v E uuid nm w))) !! uuid = Some row
    ∧ (guild_id old ≠ g_id g →
         highest_sb_level row = None ∧ level_last_updated row = None)
    ∧ (guild_id old = g_id g →
         highest_sb_level row = highest_sb_level old
         ∧ level_last_updated row = level_last_updated old).
Proof.
  intros Hok Hreply Hs Hg Hin Hold.
  destruct (scanPlayerGuild_found v E uuid nm w body g)
    as (w1 & -> & _ & _ & _ & _ & Hrow & _); try done.
  apply last_rank_is_Some in Hin as [rk Hrk].
  simpl. rewrite lookup_upsert_members, Hrk. simpl. rewrite Hrow, Hold.
  eexists. split; [done|].
  destruct (decide (guild_id old ≠ g_id g)) as [Hne|Heq]; simpl.
  - split; [done | by intros ?].
  - apply dec_stable in Heq. split; [by intros ? | done].
Qed.

Lemma found_scan_levels_witness :
  ∃ row, members (db (world_of (scanPlayerGuild LevelSweeper
                        (answering (in_guild guild_A)) steve None
                        (world_of (updateMemberLevel levels_env steve world_with_B)))))
           !! steve = Some row
    ∧ highest_sb_level row = None ∧ level_last_updated row = None.
Proof.
  destruct (found_scan_levels LevelSweeper (answering (in_guild guild_A)) steve None
              (world_of (updateMemberLevel levels_env steve world_with_B))
              {| success := true; guild := Some guild_A |} guild_A
              {| guild_id := g_id guild_B; rank := "Officer"; last_scan := Some 5000;
                 highest_sb_level := Some (level_of_xp 12345);
                 level_last_updated := Some 5000000 |})
    as (row & Hrow & Hmoved & _).
  - intros s. reflexivity.
  - reflexivity.
  - reflexivity.
  - reflexivity.
  - vm_compute. apply list_elem_of_here.
  - vm_compute. reflexivity.
  - exists row. split; [exact Hrow|]. apply Hmoved. vm_compute. discriminate.
Defined.

(** X9: in the sweeper's file, a reply with [success: false] is handled as
    "not in a guild", even when it carries a guild: the player is upserted
    into [players_no_guild] with the current time, and [guilds] and [members]
    stay as they were. *)
Theorem unsuccessful_reply_is_no_guild (E : Env) (uuid : string)
    (nm : option string) (w : World) (body : GuildBody) :
  guild_api E uuid = Replied body →
  success body = false →
  let w' := world_of (scanPlayerGuild LevelSweeper E uuid nm w) in
  ng_last_scan <$> players_no_guild (db w') !! uuid = Some (Some (clock w `div` 1000))
  ∧ members (db w') = members (db w)
  ∧ guilds (db w') = guilds (db w).
Proof.
  intros Hreply Hs. simpl.
  rewrite (scanPlayerGuild_absent _ _ _ _ _ body) by (by rewrite ?Hs).
  simpl. split; [|done]. unfold upsert_no_guild.
  by rewrite lookup_insert_eq.
Qed.

Lemma unsuccessful_reply_is_no_guild_witness :
  ng_last_scan <$> players_no_guild (db (world_of (scanPlayerGuild LevelSweeper
      (answering (Replied {| success := false; guild := Some guild_A |}))
      steve None (start_world 8000)))) !! steve = Some (Some 8)
  ∧ members (db (world_of (scanPlayerGuild LevelSweeper
      (answering (Replied {| success := false; guild := Some guild_A |}))
      steve None (start_world 8000)))) = members (db (start_world 8000))
  ∧ guilds (db (world_of (scanPlayerGuild LevelSweeper
      (answering (Replied {| success := false; guild := Some guild_A |}))
      steve None (start_world 8000)))) = guilds (db (start_world 8000)).
Proof.
  apply (unsuccessful_reply_is_no_guild
           (answering (Replied {| success := false; guild := Some guild_A |}))
           steve None (start_world 8000) {| success := false; guild := Some guild_A |});
    reflexivity.
Defined.

(** * More about [POST /player] *)

(** The handler, case by case, when no statement fails. *)
Lemma post_player_eq v E c rest w :
  healthy E →
  post_player v E (Some (String c rest)) w =
    match members (db w) !! strip_hyphens (String c rest) with
    | Some m =>
        if stale v (last_scan m) (clock w `div` 1000)
        then Returned (Json 200 ("Queued guild scan for guild " +:+ guild_id m))
                      (with_queue (λ q, q ++ [strip_hyphens (String c rest)]) w)
        else Returned (Json 200 "Guild recently scanned, no update needed.") w
    | None =>
        match players_no_guild (db w) !! strip_hyphens (String c rest) with
        | Some p =>
            if stale v (ng_last_scan p) (clock w `div` 1000)
            then Returned (Json 200 ("Queued player scan for "
                                       +:+ strip_hyphens (String c rest)))
                          (with_queue (λ q, q ++ [strip_hyphens (String c rest)]) w)
            else Returned (Json 200 "Player recently scanned, no update needed.") w
        | None =>
            Returned (Json 200 "New player added and queued for scan.")
              (with_queue (λ q, q ++ [strip_hyphens (String c rest)])
                 (with_db (with_players_no_guild
                    (<[strip_hyphens (String c rest) :=
                         {| ng_name := None; ng_last_scan := Some 0 |}]>)) w))
        end
    end.
Proof.
  intros Hok. set (u := strip_hyphens (String c rest)).
  unfold post_player. fold u. rewrite Hok. unfold_M.
  destruct (members (db w) !! u) as [m|]; simpl.
  - by destruct (stale v (last_scan m) _).
  - rewrite Hok. destruct (players_no_guild (db w) !! u) as [p|]; simpl.
    + by destruct (stale v (ng_last_scan p) _).
    + by rewrite Hok.
Qed.

(** X10: a player the store does not know gets a placeholder row in
    [players_no_guild] with last-scan [0], one scan task is queued for the
    normalised identifier, and nothing else changes. *)
Theorem post_player_unknown (v : variant) (E : Env) (uuid : string) (w : World) :
  healthy E → uuid ≠ "" →
  members (db w) !! strip_hyphens uuid = None →
  players_no_guild (db w) !! strip_hyphens uuid = None →
  post_player v E (Some uuid) w =
    Returned (Json 200 "New player added and queued for scan.")
      (with_queue (λ q, q ++ [strip_hyphens uuid])
         (with_db (with_players_no_guild
            (<[strip_hyphens uuid := {| ng_name := None; ng_last_scan := Some 0 |}]>)) w)).
Proof.
  intros Hok Hne Hm Hp. destruct uuid as [|c rest]; [done|].
  by rewrite post_player_eq, Hm, Hp.
Qed.

Lemma post_player_unknown_witness :
  post_player LevelSweeper quiet (Some "ab-cd") world_with_A =
    Returned (Json 200 "New player added and queued for scan.")
      (with_queue (λ q, q ++ ["abcd"])
         (with_db (with_players_no_guild
            (<["abcd" := {| ng_name := None; ng_last_scan := Some 0 |}]>)) world_with_A)).
Proof.
  apply (post_player_unknown LevelSweeper quiet "ab-cd" world_with_A).
  - intros s. reflexivity.
  - discriminate.
  - vm_compute. reflexivity.
  - vm_compute. reflexivity.
Defined.

(** X11: when the row the handler consults (the member row, else the
    [players_no_guild] row) was never scanned, carries last-scan [0], or was
    scanned more than the TTL ago, the handler queues exactly one scan for
    the normalised identifier and leaves the store as it is. *)
Theorem post_player_stale_queues (v : variant) (E : Env) (uuid : string) (w : World) :
  healthy E → uuid ≠ "" →
  (∀ m, members (db w) !! strip_hyphens uuid = Some m →
        (last_scan m = None ∨ last_scan m = Some 0
         ∨ ∃ s, last_scan m = Some s ∧ SEVEN_DAYS v < clock w `div` 1000 - s) →
        post_player v E (Some uuid) w =
          Returned (Json 200 ("Queued guild scan for guild " +:+ guild_id m))
                   (with_queue (λ q, q ++ [strip_hyphens uuid]) w))
  ∧ (∀ p, members (db w) !! strip_hyphens uuid = None →
        players_no_guild (db w) !! strip_hyphens uuid = Some p →
        (ng_last_scan p = None ∨ ng_last_scan p = Some 0
         ∨ ∃ s, ng_last_scan p = Some s ∧ SEVEN_DAYS v < clock w `div` 1000 - s) →
        post_player v E (Some uuid) w =
          Returned (Json 200 ("Queued player scan for " +:+ strip_hyphens uuid))
                   (with_queue (λ q, q ++ [strip_hyphens uuid]) w)).
Proof.
  intros Hok Hne. destruct uuid as [|c rest]; [done|].
  assert (∀ ls, (ls = None ∨ ls = Some 0
                 ∨ ∃ s, ls = Some s ∧ SEVEN_DAYS v < clock w `div` 1000 - s) →
                stale v ls (clock w `div` 1000) = true) as Hstale.
  { intros ls [->|[->|(s & -> & Hs)]]; [done..|]. unfold stale.
    apply orb_true_iff. right. by apply Z.ltb_lt. }
  split.
  - intros m Hm Hls. by rewrite post_player_eq, Hm, Hstale.
  - intros p Hm Hp Hls. by rewrite post_player_eq, Hm, Hp, Hstale.
Qed.

Lemma post_player_stale_queues_witness :
  post_player LevelSweeper quiet (Some steve) (with_clock (λ _, 9000000000) world_with_A) =
    Returned (Json 200 "Queued guild scan for guild aaaaaaaaaaaaaaaaaaaaaaaa")
             (with_queue (λ q, q ++ [steve]) (with_clock (λ _, 9000000000) world_with_A)).
Proof.
  refine (proj1 (post_player_stale_queues LevelSweeper quiet steve
                   (with_clock (λ _, 9000000000) world_with_A) _ _)
            {| guild_id := "aaaaaaaaaaaaaaaaaaaaaaaa"; rank := "Member";
               last_scan := Some 5000; highest_sb_level := None;
               level_last_updated := None |} _ _).
  - intros s. reflexivity.
  - discriminate.
  - vm_compute. reflexivity.
  - right. right. exists 5000. split; [reflexivity|]. vm_compute. reflexivity.
Defined.

(** X12: whatever the request and whatever fails, [POST /player] never
    touches [guilds], [members], the counters or the clock; it adds at most
    one task to the queue, at the end, and changes [players_no_guild] at most
    at the normalised identifier.  A missing or empty [uuid] is answered with
    400 and changes nothing. *)
Theorem post_player_frame (v : variant) (E : Env) (uuid : option string) (w : World) :
  let w' := world_of (post_player v E uuid w) in
  guilds (db w') = guilds (db w)
  ∧ members (db w') = members (db w)
  ∧ stats w' = stats w
  ∧ clock w' = clock w
  ∧ (queue w' = queue w
     ∨ ∃ u, uuid = Some u ∧ queue w' = queue w ++ [strip_hyphens u])
  ∧ (∀ u k, uuid = Some u → k ≠ strip_hyphens u →
       players_no_guild (db w') !! k = players_no_guild (db w) !! k)
  ∧ (uuid = None ∨ uuid = Some "" →
       post_player v E uuid w = Returned (JsonError 400 "Missing uuid in request body.") w).
Proof.
  cbv zeta. destruct uuid as [[|c rest]|].
  - simpl. split_and!; try done; by left.
  - unfold post_player. set (u := strip_hyphens (String c rest)). unfold_M.
    destruct (db_fails E PlayerSelectMember); simpl.
    { split_and!; try done; [by left | by intros [?|?]]. }
    destruct (members (db w) !! u) as [m|]; simpl.
    { match goal with |- context [stale ?a ?b ?n] => destruct (stale a b n) end; simpl.
      - split_and!; try done; [right; by exists (String c rest) | by intros [?|?]].
      - split_and!; try done; [by left | by intros [?|?]]. }
    destruct (db_fails E PlayerSelectNoGuild); simpl.
    { split_and!; try done; [by left | by intros [?|?]]. }
    destruct (players_no_guild (db w) !! u) as [p|]; simpl.
    { match goal with |- context [stale ?a ?b ?n] => destruct (stale a b n) end; simpl.
      - split_and!; try done; [right; by exists (String c rest) | by intros [?|?]].
      - split_and!; try done; [by left | by intros [?|?]]. }
    destruct (db_fails E PlayerInsertNoGuild); simpl.
    { split_and!; try done; [by left | by intros [?|?]]. }
    split_and!; try done.
    + right. by exists (String c rest).
    + intros u' k [= <-] Hk. by rewrite lookup_insert_ne.
    + by intros [?|?].
  - simpl. split_and!; try done; by left.
Qed.

(** X13: an identifier and its hyphen-free form are handled alike. *)
Theorem post_player_normalises (v : variant) (E : Env) (uuid : string) (w : World) :
  strip_hyphens uuid ≠ "" →
  post_player v E (Some uuid) w = post_player v E (Some (strip_hyphens uuid)) w.
Proof.
  intros Hne. destruct uuid as [|c rest]; [done|].
  destruct (strip_hyphens (String c rest)) as [|c' rest'] eqn:H; [done|].
  unfold post_player. by rewrite <- H, strip_hyphens_idemp.
Qed.

Lemma post_player_normalises_witness :
  post_player IndexJs quiet (Some "1111-2222-3333") world_with_A
  = post_player IndexJs quiet (Some "111122223333") world_with_A.
Proof.
  apply (post_player_normalises IndexJs quiet "1111-2222-3333" world_with_A).
  vm_compute. discriminate.
Defined.

(** X14: the queue does not deduplicate.  A second request for a player who
    was unknown at the first one, made at any time before the scan has run,
    queues a second task for the same identifier. *)
Theorem post_player_twice_queues_twice (v : variant) (E E' : Env) (uuid : string)
    (w : World) (t : Z) :
  healthy E → healthy E' → uuid ≠ "" →
  members (db w) !! strip_hyphens uuid = None →
  players_no_guild (db w) !! strip_hyphens uuid = None →
  let w1 := with_clock (λ _, t) (world_of (post_player v E (Some uuid) w)) in
  ∃ w2, post_player v E' (Some uuid) w1
          = Returned (Json 200 ("Queued player scan for " +:+ strip_hyphens uuid)) w2
    ∧ queue w2 = queue w ++ [strip_hyphens uuid; strip_hyphens uuid].
Proof.
  intros Hok Hok' Hne Hm Hp. destruct uuid as [|c rest]; [done|].
  cbv zeta. rewrite (post_player_eq v E) by done. rewrite Hm, Hp.
  rewrite (post_player_eq v E') by done.
  cbn [world_of db with_clock with_queue with_db with_players_no_guild members
       players_no_guild].
  rewrite Hm, lookup_insert_eq.
  eexists. split; [done|]. simpl. by rewrite <- app_assoc.
Qed.

Lemma post_player_twice_queues_twice_witness :
  ∃ w2, post_player IndexJs quiet (Some fresh_player)
          (with_clock (λ _, 5000001) world_after_post)
          = Returned (Json 200 ("Queued player scan for " +:+ fresh_player)) w2
    ∧ queue w2 = [fresh_player; fresh_player].
Proof.
  apply (post_player_twice_queues_twice IndexJs quiet quiet fresh_player
           (start_world 5000000) 5000001).
  - intros s. reflexivity.
  - intros s. reflexivity.
  - discriminate.
  - vm_compute. reflexivity.
  - vm_compute. reflexivity.
Defined.

Lemma not_stale v s n : s ≠ 0 → n - s ≤ SEVEN_DAYS v → stale v (Some s) n = false.
Proof.
  intros Hs Hle. unfold stale.
  destruct (s =? 0) eqn:H0; [lia|].
  destruct (SEVEN_DAYS v <? n - s) eqn:H1; [lia | done].
Qed.

(** X15: in the sweeper's file, once a scan has found no guild for a
    player without member row, a request for the player made while the scan
    is at most the TTL old is answered "recently scanned" and changes
    nothing.  (The scan must not have run in the very first second of the
    epoch: last-scan [0] means "never".) *)
Theorem absent_scan_then_post (E E' : Env) (uuid : string)
    (nm : option string) (w : World) (body : GuildBody) (t : Z) :
  healthy E' → uuid ≠ "" →
  guild_api E (strip_hyphens uuid) = Replied body →
  (if success body then guild body else None) = None →
  members (db w) !! strip_hyphens uuid = None →
  clock w `div` 1000 ≠ 0 →
  t `div` 1000 - clock w `div` 1000 ≤ SEVEN_DAYS LevelSweeper →
  let w1 := with_clock (λ _, t)
              (world_of (scanPlayerGuild LevelSweeper E (strip_hyphens uuid) nm w)) in
  post_player LevelSweeper E' (Some uuid) w1
    = Returned (Json 200 "Player recently scanned, no update needed.") w1.
Proof.
  intros Hok Hne Hreply Habsent Hm Hnz Hle. destruct uuid as [|c rest]; [done|].
  cbv zeta. rewrite (scanPlayerGuild_absent _ _ _ _ _ body) by done.
  rewrite post_player_eq by done.
  cbn [world_of db with_clock with_db with_stats with_players_no_guild members
       players_no_guild clock].
  rewrite Hm. unfold upsert_no_guild.
  rewrite lookup_insert_eq; cbn [ng_last_scan]; by rewrite not_stale.
Qed.

Lemma absent_scan_then_post_witness :
  post_player LevelSweeper quiet (Some fresh_player) world_hour_after_absent
    = Returned (Json 200 "Player recently scanned, no update needed.")
               world_hour_after_absent.
Proof.
  apply (absent_scan_then_post (answering no_guild) quiet fresh_player None
           (start_world 5000000) {| success := true; guild := None |}
           (5000000 + 3600000)).
  - intros s. reflexivity.
  - discriminate.
  - reflexivity.
  - reflexivity.
  - vm_compute. reflexivity.
  - vm_compute. discriminate.
  - vm_compute. discriminate.
Defined.

(** X16: once a scan has found the player in a guild (the player is in the
    fetched roster, no statement failed), a request for the player made while
    the scan is at most the TTL old is answered "recently scanned" and
    changes nothing. *)
Theorem found_scan_then_post (v : variant) (E E' : Env) (uuid : string)
    (nm : option string) (w : World) (body : GuildBody) (g : Guild) (t : Z) :
  healthy E → healthy E' → uuid ≠ "" →
  guild_api E (strip_hyphens uuid) = Replied body →
  success body = true → guild body = Some g →
  strip_hyphens uuid ∈ roster_uuids g →
  clock w `div` 1000 ≠ 0 →
  t `div` 1000 - clock w `div` 1000 ≤ SEVEN_DAYS v →
  let w1 := with_clock (λ _, t)
              (world_of (scanPlayerGuild v E (strip_hyphens uuid) nm w)) in
  post_player v E' (Some uuid) w1
    = Returned (Json 200 "Guild recently scanned, no update needed.") w1.
Proof.
  intros Hok Hok' Hne Hreply Hs Hg Hin Hnz Hle. destruct uuid as [|c rest]; [done|].
  cbv zeta. rewrite post_player_eq by done.
  set (u := strip_hyphens (String c rest)) in *.
  destruct (scanPlayerGuild_found v E u nm w body g) as (w0 & -> & Hc & _); try done.
  apply last_rank_is_Some in Hin as [rk Hrk].
  cbn [world_of db with_clock clock].
  replace (members (db (upserted g w0)) !! u)
    with (Some {| guild_id := g_id g; rank := rk;
                  last_scan := Some (clock w `div` 1000);
                  highest_sb_level := members (db w0) !! u ≫= highest_sb_level;
                  level_last_updated := members (db w0) !! u ≫= level_last_updated |}).
  - cbn [last_scan]. by rewrite not_stale.
  - simpl. by rewrite lookup_upsert_members, Hrk, Hc.
Qed.

Lemma found_scan_then_post_witness :
  post_player IndexJs quiet (Some "1111-2222-3333") world_week_after_found
    = Returned (Json 200 "Guild recently scanned, no update needed.")
               world_week_after_found.
Proof.
  apply (found_scan_then_post IndexJs (answering (in_guild guild_A)) quiet
           "1111-2222-3333" None (start_world 5000000)
           {| success := true; guild := Some guild_A |} guild_A (5000000 + 604800000)).
  - intros s. reflexivity.
  - intros s. reflexivity.
  - discriminate.
  - reflexivity.
  - reflexivity.
  - reflexivity.
  - vm_compute. apply list_elem_of_here.
  - vm_compute. discriminate.
  - vm_compute. discriminate.
Defined.

(** * The rolling windows of [/stats] *)

Lemma shift_expired_bounds (cutoff : Z) (ts : list Z) :
  (length (filter (λ t : Z, (cutoff ≤ t)%Z) ts) ≤ length (shift_expired cutoff ts))%nat
  ∧ (length (shift_expired cutoff ts) ≤ length ts)%nat.
Proof.
  induction ts as [|t ts [IH1 IH2]]; simpl; [done|].
  destruct (t <? cutoff) eqn:H.
  - apply Z.ltb_lt in H. rewrite filter_cons_False by lia. split; lia.
  - split; [|done]. apply (length_filter _ (t :: ts)).
Qed.

Lemma filter_all_Z (P : Z → Prop) `{∀ x, Decision (P x)} (l : list Z) :
  Forall P l → filter P l = l.
Proof.
  induction 1 as [|x l Hx Hl IH]; [done|].
  rewrite filter_cons_True by done. by rewrite IH.
Qed.

Lemma shift_expired_sorted (cutoff : Z) (ts : list Z) :
  StronglySorted Z.le ts → shift_expired cutoff ts = filter (λ t, cutoff ≤ t) ts.
Proof.
  induction 1 as [|t ts Hsorted IH Hall]; simpl; [done|].
  destruct (t <? cutoff) eqn:H.
  - apply Z.ltb_lt in H. by rewrite filter_cons_False by lia.
  - apply Z.ltb_ge in H. rewrite filter_cons_True by done. f_equal.
    symmetry. apply filter_all_Z.
    eapply Forall_impl; [done|]. simpl. intros. lia.
Qed.

Lemma shift_expired_idemp (cutoff : Z) (ts : list Z) :
  shift_expired cutoff (shift_expired cutoff ts) = shift_expired cutoff ts.
Proof.
  induction ts as [|t ts IH]; simpl; [done|].
  destruct (t <? cutoff) eqn:H; [done|]. simpl. by rewrite H.
Qed.

(** X17: [countInWindow] never reports fewer events than lie within the
    window (an event is within the window when [Date.now() - ts <= windowMs])
    nor more than are stored; and when the stored timestamps are in
    ascending order it reports exactly the events within the window and
    keeps exactly those. *)
Theorem countInWindow_counts (field : Stats → list Z) (store : list Z → Stats → Stats)
    (windowMs : Z) (w : World) :
  (∀ l s, field (store l s) = l) →
  ∃ n w', countInWindow field store windowMs w = Returned n w'
    ∧ Z.of_nat (length (filter (λ ts, clock w - ts ≤ windowMs) (field (stats w)))) ≤ n
    ∧ n ≤ Z.of_nat (length (field (stats w)))
    ∧ (StronglySorted Z.le (field (stats w)) →
         field (stats w') = filter (λ ts, clock w - ts ≤ windowMs) (field (stats w))
         ∧ n = Z.of_nat (length (filter (λ ts, clock w - ts ≤ windowMs)
                                        (field (stats w))))).
Proof.
  intros Hlens. unfold countInWindow. unfold_M. simpl. rewrite Hlens.
  eexists _, _. split; [done|].
  assert (∀ l : list Z, filter (λ ts, clock w - ts ≤ windowMs) l
                        = filter (λ t, clock w - windowMs ≤ t) l) as Hf.
  { intros l. apply list_filter_iff. intros; lia. }
  pose proof (shift_expired_bounds (clock w - windowMs) (field (stats w))) as [H1 H2].
  split; [rewrite Hf; lia|]. split; [lia|].
  intros Hsorted. simpl. rewrite Hlens, Hf. by rewrite shift_expired_sorted.
Qed.

Lemma countInWindow_counts_witness :
  ∃ n w', countInWindow guildsAddedTimestamps set_guildsAdded 60000
            (with_clock (λ _, 5060001) world_with_A) = Returned n w'
    ∧ 0 ≤ n ∧ n ≤ 1.
Proof.
  destruct (countInWindow_counts guildsAddedTimestamps set_guildsAdded 60000
              (with_clock (λ _, 5060001) world_with_A)) as (n & w' & Hrun & Hlo & Hhi & _).
  - intros l s. reflexivity.
  - exists n, w'. split; [exact Hrun|]. split.
    + eapply Z.le_trans; [|exact Hlo]. apply Nat2Z.is_nonneg.
    + exact Hhi.
Defined.

(** X18: [GET /stats] never changes the store, the queue, the clock or
    [totalGuildsTracked].  In the sweeper's file it changes nothing at all;
    in [index.js] it prunes the timestamp arrays, and asking again at the same
    clock reading gives the same answer and prunes nothing more. *)
Theorem get_stats_is_a_read (v : variant) (E : Env) (w : World) :
  let w1 := world_of (get_stats v E w) in
  db w1 = db w ∧ queue w1 = queue w ∧ clock w1 = clock w
  ∧ totalGuildsTracked (stats w1) = totalGuildsTracked (stats w)
  ∧ (v = LevelSweeper → w1 = w)
  ∧ (∃ r, get_stats v E w = Returned r w1 ∧ get_stats v E w1 = Returned r w1).
Proof.
  destruct v; cbv zeta.
  - unfold get_stats, countInWindow. unfold_M. simpl.
    split_and!; try done. eexists. split; [done|].
    rewrite !shift_expired_idemp. f_equal.
    unfold with_stats, set_dbGuildRequests, set_hypixelApiRequest, set_guildsAdded.
    simpl. by rewrite !shift_expired_idemp.
  - unfold get_stats. unfold_M. simpl.
    destruct (db_fails E StatsCount); simpl.
    + split_and!; try done. by eexists.
    + split_and!; try done. by eexists.
Qed.

(** * The read endpoints *)

Lemma elem_of_guild_roster gid d u rk :
  (u, rk) ∈ guild_roster gid d
  ↔ ∃ r, members d !! u = Some r ∧ guild_id r = gid ∧ rank r = rk.
Proof.
  unfold guild_roster. rewrite list_elem_of_fmap. split.
  - intros ([u' r] & [= -> ->] & Hin). apply list_elem_of_filter in Hin as [Hg Hin].
    apply elem_of_map_to_list in Hin. by exists r.
  - intros (r & Hr & Hg & Hrk). exists (u, r). split; [by rewrite <- Hrk|].
    apply list_elem_of_filter. split; [done|]. by apply elem_of_map_to_list.
Qed.

(** X19: [GET /guild/:identifier].  When no guild matches, the answer is
    404 and nothing changes, the read counter included.  When a guild
    matches, the read is recorded once and the answer lists exactly the
    players whose member row points at that guild, each with the rank of
    the row. *)
Theorem get_guild_answer (fails : read_stmt → bool) (identifier : string) (w : World) :
  fails GuildSelect = false →
  (find_guild identifier (db w) = None →
     get_guild fails identifier w = Returned (JsonError 404 "Guild not found") w)
  ∧ (∀ gid row, find_guild identifier (db w) = Some (gid, row) →
       fails GuildMembersSelect = false →
       ∃ data, get_guild fails identifier w
                 = Returned (Json 200 data) (with_stats (push_dbGuildRequest (clock w)) w)
         ∧ gd_guild_id data = gid ∧ gd_name data = name row
         ∧ gd_tag data = tag row ∧ gd_last_scan data = gr_last_scan row
         ∧ ∀ u rk, (u, rk) ∈ gd_members data
                   ↔ ∃ r, members (db w) !! u = Some r ∧ guild_id r = gid ∧ rank r = rk).
Proof.
  intros Hok. unfold get_guild. rewrite Hok. unfold_M. split.
  - by intros ->.
  - intros gid row -> Hok2. rewrite Hok2. simpl. eexists. split; [done|].
    split_and!; try done. intros u rk. apply elem_of_guild_roster.
Qed.

Lemma get_guild_answer_witness :
  get_guild reads_ok "Gamma" world_with_A
    = Returned (JsonError 404 "Guild not found") world_with_A.
Proof.
  apply (proj1 (get_guild_answer reads_ok "Gamma" world_with_A eq_refl)).
  vm_compute. reflexivity.
Defined.

(** X20: after a successful [upsertGuild] of a guild whose [_id] has the
    shape of a guild id (24 lowercase hex digits), [GET /guild/<_id>] answers
    200 with the fetched name, the fetched tag (or the empty string), the
    time of the upsert, and a member list that holds every player of the
    fetched roster under the normalised identifier. *)
Theorem upsertGuild_then_get_guild (E : Env) (g : Guild) (w w' : World) :
  isGuildId (g_id g) = true →
  upsertGuild E g w = Returned tt w' →
  ∃ data w'', get_guild reads_ok (g_id g) w' = Returned (Json 200 data) w''
    ∧ gd_guild_id data = g_id g
    ∧ gd_name data = g_name g
    ∧ gd_tag data = default "" (g_tag g)
    ∧ gd_last_scan data = Some (clock w `div` 1000)
    ∧ ∀ u, u ∈ roster_uuids g → ∃ rk, (u, rk) ∈ gd_members data.
Proof.
  intros Hid. rewrite upsertGuild_eq.
  destruct (db_fails E UpsertGuildInsert); [done|].
  destruct (db_fails E UpsertFinalize); [done|].
  intros [= <-]. unfold get_guild, reads_ok. unfold_M.
  unfold find_guild. rewrite Hid, guilds_upserted.
  unfold upsert_guild_row. rewrite lookup_insert_eq. simpl.
  eexists _, _. split; [done|]. split_and!; try done.
  intros u Hin. apply last_rank_is_Some in Hin as [rk Hrk].
  exists rk. apply elem_of_guild_roster. rewrite lookup_upsert_members, Hrk.
  by eexists.
Qed.

Lemma upsertGuild_then_get_guild_witness :
  ∃ data w'', get_guild reads_ok (g_id guild_A) (upserted guild_A (start_world 7000))
                = Returned (Json 200 data) w''
    ∧ gd_guild_id data = g_id guild_A
    ∧ gd_name data = "Alpha"
    ∧ gd_tag data = "A"
    ∧ gd_last_scan data = Some 7
    ∧ ∀ u, u ∈ roster_uuids guild_A → ∃ rk, (u, rk) ∈ gd_members data.
Proof.
  apply (upsertGuild_then_get_guild quiet guild_A (start_world 7000)
           (upserted guild_A (start_world 7000))).
  - vm_compute. reflexivity.
  - vm_compute. reflexivity.
Defined.

(** X21: looking a guild up by name.  A stored guild whose name does not
    have the shape of a guild id is found by its name (the row returned
    carries that name; it may be another guild of the same name).  A name
    that has the shape of a guild id is never searched as a name: it is
    looked up as a key, so the guild is found by it only if that key is
    its own or another guild's id. *)
Theorem find_guild_by_name (d : Db) (gid : string) (row : GuildRow) :
  guilds d !! gid = Some row →
  (isGuildId (name row) = false →
     ∃ gid' row', find_guild (name row) d = Some (gid', row')
       ∧ guilds d !! gid' = Some row' ∧ name row' = name row)
  ∧ (isGuildId (name row) = true →
     find_guild (name row) d = (λ r, (name row, r)) <$> guilds d !! name row).
Proof.
  intros Hrow. unfold find_guild. split; intros ->; [|done].
  destruct (filter (λ r, name r.2 = name row) (map_to_list (guilds d)))
    as [|[gid' row'] rest] eqn:Hf.
  - exfalso. assert ((gid, row) ∈ filter (λ r, name r.2 = name row)
                                        (map_to_list (guilds d))) as Hin.
    { apply list_elem_of_filter. split; [done|]. by apply elem_of_map_to_list. }
    rewrite Hf in Hin. by apply elem_of_nil in Hin.
  - exists gid', row'. split; [done|].
    assert ((gid', row') ∈ filter (λ r, name r.2 = name row)
                                  (map_to_list (guilds d))) as Hin.
    { rewrite Hf. apply list_elem_of_here. }
    apply list_elem_of_filter in Hin as [Hn Hin].
    by apply elem_of_map_to_list in Hin.
Qed.

Lemma find_guild_by_name_witness :
  ∃ gid' row', find_guild "Alpha" (db world_with_A) = Some (gid', row')
    ∧ guilds (db world_with_A) !! gid' = Some row' ∧ name row' = "Alpha".
Proof.
  apply (proj1 (find_guild_by_name (db world_with_A) (g_id guild_A)
                  {| name := "Alpha"; tag := "A"; gr_last_scan := Some 5000;
                     avg_sb_level := None |} ltac:(vm_compute; reflexivity))).
  vm_compute. reflexivity.
Defined.

#[global] Instance count_desc_total : Total count_desc.
Proof. intros a b. unfold count_desc. lia. Qed.

#[global] Instance count_desc_trans : Transitive count_desc.
Proof. intros a b c. unfold count_desc. lia. Qed.



(** X23: the start-up query sets [totalGuildsTracked] to the number of
    guild rows.  From there, a successful [upsertGuild] keeps the counter
    equal to the number of guild rows exactly when the guild had no row
    yet. *)
Theorem startup_count_then_upsert (fails : read_stmt → bool) (w : World) :
  fails StartupCount = false →
  let w0 := world_of (startup_count fails w) in
  db w0 = db w
  ∧ totalGuildsTracked (stats w0) = Z.of_nat (size (guilds (db w)))
  ∧ ∀ E g w', upsertGuild E g w0 = Returned tt w' →
      (totalGuildsTracked (stats w') = Z.of_nat (size (guilds (db w')))
       ↔ guilds (db w) !! g_id g = None).
Proof.
  intros Hok. unfold startup_count. rewrite Hok. unfold_M. simpl.
  split; [done|]. split; [done|]. intros E g w'. rewrite upsertGuild_eq.
  destruct (db_fails E UpsertGuildInsert); [done|].
  destruct (db_fails E UpsertFinalize); [done|].
  intros [= <-]. rewrite guilds_upserted. simpl. unfold upsert_guild_row.
  destruct (guilds (db w) !! g_id g) as [row|] eqn:Hrow.
  - rewrite map_size_insert_Some by done. split; [lia | done].
  - rewrite map_size_insert_None by done. split; [done | lia].
Qed.

Lemma startup_count_then_upsert_witness :
  totalGuildsTracked (stats (world_of (startup_count reads_ok world_with_A))) = 1.
Proof.
  apply (startup_count_then_upsert reads_ok world_with_A eq_refl).
Defined.

(** * More about the sweeper *)

Lemma level_is_fresh_stamped r u nowTime :
  level_last_updated r = Some u → u ≠ 0 → nowTime - u < 604800000 →
  level_is_fresh (Some r) nowTime = true.
Proof.
  intros Hu Hnz Hlt. unfold level_is_fresh. simpl. rewrite Hu.
  apply andb_true_iff. split; [|by apply Z.ltb_lt].
  apply negb_true_iff. by apply Z.eqb_neq.
Qed.

Lemma updateMemberLevel_due E uuid w :
  db_fails E LevelSelect = false →
  level_is_fresh (members (db w) !! uuid) (clock w) = false →
  updateMemberLevel E uuid w =
    match profiles_api E uuid with
    | Rejected => Returned tt w
    | Replied body =>
        match (if pb_success body then highest_level uuid <$> pb_profiles body else None) with
        | Some lvl =>
            Returned tt (with_db (with_members (alter (set_level lvl (clock w)) uuid))
                           (with_stats (push_hypixelApiRequest (clock w)) w))
        | None => Returned tt (with_stats (push_hypixelApiRequest (clock w)) w)
        end
    end.
Proof.
  intros Hok Hfresh.
  unfold updateMemberLevel, db_get, Date_now, gets, mbind, M_bind.
  rewrite Hok, Hfresh.
  destruct (profiles_api E uuid) as [|body] eqn:H.
  - by rewrite fetchHighestSBLevel_rejected.
  - rewrite (fetchHighestSBLevel_replied _ _ body) by done.
    by destruct (if pb_success body then _ else _).
Qed.

(** X24: [updateMemberLevel] on a member whose level is due.  When the
    profiles request is rejected, reports no success or carries no profiles,
    the store is left as it is, so the member stays due.  When it carries
    profiles, the member's row gets the computed level and the current time
    as [level_last_updated] and keeps its guild, rank and last-scan; no other
    row changes and no row is created. *)
Theorem updateMemberLevel_stores_level (E : Env) (uuid : string) (w : World) :
  db_fails E LevelSelect = false →
  level_is_fresh (members (db w) !! uuid) (clock w) = false →
  let w' := world_of (updateMemberLevel E uuid w) in
  (∃ u, updateMemberLevel E uuid w = Returned u w')
  ∧ guilds (db w') = guilds (db w)
  ∧ (∀ k, k ≠ uuid → members (db w') !! k = members (db w) !! k)
  ∧ (members (db w) !! uuid = None → members (db w') !! uuid = None)
  ∧ ((profiles_api E uuid = Rejected
      ∨ ∃ body, profiles_api E uuid = Replied body
                ∧ (pb_success body = false ∨ pb_profiles body = None)) →
     db w' = db w)
  ∧ (∀ body profiles r,
       profiles_api E uuid = Replied body → pb_success body = true →
       pb_profiles body = Some profiles → members (db w) !! uuid = Some r →
       members (db w') !! uuid =
         Some {| guild_id := guild_id r; rank := rank r; last_scan := last_scan r;
                 highest_sb_level := Some (highest_level uuid profiles);
                 level_last_updated := Some (clock w) |}).
Proof.
  intros Hok Hfresh. cbv zeta. rewrite updateMemberLevel_due by done.
  destruct (profiles_api E uuid) as [|body] eqn:Hreply.
  { split_and!; try done; try (by eexists). }
  destruct (pb_success body) eqn:Hs; [destruct (pb_profiles body) as [ps|] eqn:Hps|];
    simpl.
  - split_and!; try done; try (by eexists).
    + intros k Hk. by rewrite lookup_alter_ne.
    + intros Hnone. by rewrite lookup_alter_eq, Hnone.
    + intros [[=]|(b & [= <-] & [?|?])]; congruence.
    + intros b profiles r [= <-] _ Hp Hr. rewrite Hps in Hp. injection Hp as <-.
      by rewrite lookup_alter_eq, Hr.
  - split_and!; try done; try (by eexists). intros b profiles r [= <-] _. congruence.
  - split_and!; try done; try (by eexists). intros b profiles r [= <-]. congruence.
Qed.

Lemma updateMemberLevel_stores_level_witness :
  members (db (world_of (updateMemberLevel levels_env steve world_with_B))) !! steve =
    Some {| guild_id := g_id guild_B; rank := "Officer"; last_scan := Some 5000;
            highest_sb_level :=
              Some (highest_level steve
                      [ Some {| pf_members := Some {[ steve :=
                          {| leveling := Some {| experience := Some 12345 |} |} ]} |};
                        Some {| pf_members := Some ∅ |} ]);
            level_last_updated := Some (clock world_with_B) |}.
Proof.
  refine (proj2 (proj2 (proj2 (proj2 (proj2
            (updateMemberLevel_stores_level levels_env steve world_with_B _ _)))))
            _ _ {| guild_id := g_id guild_B; rank := "Officer"; last_scan := Some 5000;
                   highest_sb_level := None; level_last_updated := None |} _ _ _ _).
  - reflexivity.
  - vm_compute. reflexivity.
  - reflexivity.
  - reflexivity.
  - reflexivity.
  - vm_compute. reflexivity.
Defined.

(** X25: a member whose level was stored is skipped for the next seven
    days: [updateMemberLevel] at any clock reading less than 604800000 ms
    after the refresh makes no request and changes nothing.  (The refresh
    must not have happened at clock reading [0], which the check reads as
    "never updated".) *)
Theorem refreshed_member_is_skipped (E E' : Env) (uuid : string) (w : World)
    (body : ProfilesBody) (profiles : list (option Profile)) (t : Z) :
  db_fails E LevelSelect = false → db_fails E' LevelSelect = false →
  level_is_fresh (members (db w) !! uuid) (clock w) = false →
  profiles_api E uuid = Replied body → pb_success body = true →
  pb_profiles body = Some profiles →
  is_Some (members (db w) !! uuid) →
  clock w ≠ 0 → t - clock w < 604800000 →
  let w1 := with_clock (λ _, t) (world_of (updateMemberLevel E uuid w)) in
  updateMemberLevel E' uuid w1 = Returned tt w1.
Proof.
  intros Hok Hok' Hdue Hreply Hs Hps [r Hr] Hnz Ht. cbv zeta.
  rewrite (updateMemberLevel_due E) by done. rewrite Hreply, Hs, Hps. simpl.
  unfold updateMemberLevel, db_get, Date_now, gets, mbind, M_bind. rewrite Hok'.
  cbn [db with_clock with_db with_stats with_members members clock].
  rewrite lookup_alter_eq, Hr. simpl.
  by rewrite (level_is_fresh_stamped _ (clock w)).
Qed.

Lemma refreshed_member_is_skipped_witness :
  updateMemberLevel quiet steve world_week_after_level
    = Returned tt world_week_after_level.
Proof.
  apply (refreshed_member_is_skipped levels_env quiet steve world_with_B
           {| pb_success := true;
              pb_profiles := Some
                [ Some {| pf_members := Some {[ steve :=
                    {| leveling := Some {| experience := Some 12345 |} |} ]} |};
                  Some {| pf_members := Some ∅ |} ] |}
           [ Some {| pf_members := Some {[ steve :=
               {| leveling := Some {| experience := Some 12345 |} |} ]} |};
             Some {| pf_members := Some ∅ |} ] (5000000 + 604799999)).
  - reflexivity.
  - reflexivity.
  - vm_compute. reflexivity.
  - reflexivity.
  - reflexivity.
  - reflexivity.
  - vm_compute. by eexists.
  - vm_compute. discriminate.
  - vm_compute. reflexivity.
Defined.

#[global] Instance nulls_first_total : Total nulls_first.
Proof.
  intros a b. unfold nulls_first.
  destruct (level_last_updated a.2), (level_last_updated b.2); try (by left); try (by right).
  destruct (Z.le_ge_cases z z0); [by left | right; lia].
Qed.

#[global] Instance nulls_first_trans : Transitive nulls_first.
Proof.
  intros a b c. unfold nulls_first.
  destruct (level_last_updated a.2), (level_last_updated b.2),
           (level_last_updated c.2); try done. lia.
Qed.

(** X26: the batch of a sweep holds at most 60 rows; each is a member row
    with its guild; when there are at most 60 members, all of them are in
    it; and never-updated members come first: when a member that was never
    updated is left out of the batch, every member in the batch was never
    updated either. *)
Theorem sweep_batch_selection (d : Db) :
  (length (sweep_batch d) ≤ 60)%nat
  ∧ (∀ u gid, (u, gid) ∈ sweep_batch d →
       ∃ r, members d !! u = Some r ∧ guild_id r = gid)
  ∧ ((size (members d) ≤ 60)%nat →
       ∀ u r, members d !! u = Some r → (u, guild_id r) ∈ sweep_batch d)
  ∧ (∀ u r, members d !! u = Some r → level_last_updated r = None →
       (u, guild_id r) ∉ sweep_batch d →
       ∀ u' gid', (u', gid') ∈ sweep_batch d →
         ∃ r', members d !! u' = Some r' ∧ level_last_updated r' = None).
Proof.
  unfold sweep_batch.
  set (sorted := merge_sort nulls_first (map_to_list (members d))).
  assert (∀ x, x ∈ sorted ↔ members d !! x.1 = Some x.2) as Hsorted.
  { intros [u r]. unfold sorted. rewrite merge_sort_Permutation.
    apply elem_of_map_to_list. }
  assert (∀ x, x ∈ take 60 sorted → x ∈ sorted) as Htake.
  { intros x Hx. apply elem_of_take in Hx as (i & Hi & _).
    by eapply list_elem_of_lookup_2. }
  split_and!.
  - rewrite length_fmap, length_take. lia.
  - intros u gid Hin. apply list_elem_of_fmap in Hin as ([u' r] & [= -> ->] & Hin).
    exists r. split; [|done]. by apply (Hsorted (u', r)), Htake.
  - intros Hsize u r Hr. apply list_elem_of_fmap. exists (u, r). split; [done|].
    rewrite take_ge.
    + by apply (Hsorted (u, r)).
    + unfold sorted. by rewrite merge_sort_Permutation, length_map_to_list.
  - intros u r Hr Hnull Hout u' gid' Hin.
    apply list_elem_of_fmap in Hin as ([u'' r'] & [= -> ->] & Hin).
    exists r'. split; [by apply (Hsorted (u'', r')), Htake|].
    assert ((u, r) ∈ drop 60 sorted) as Hdrop.
    { assert ((u, r) ∈ take 60 sorted ++ drop 60 sorted) as Hall.
      { rewrite take_drop. by apply (Hsorted (u, r)). }
      apply elem_of_app in Hall as [Hl|Hr']; [|done].
      exfalso. apply Hout. apply list_elem_of_fmap. by exists (u, r). }
    assert (nulls_first (u'', r') (u, r)) as Hle.
    { eapply (StronglySorted_app_1_elem_of nulls_first (take 60 sorted) (drop 60 sorted));
        [|done..].
      rewrite take_drop. apply (StronglySorted_merge_sort nulls_first). }
    unfold nulls_first in Hle. simpl in Hle. rewrite Hnull in Hle.
    by destruct (level_last_updated r').
Qed.

Lemma sweep_batch_selection_witness :
  (steve, g_id guild_A) ∈ sweep_batch (db world_with_A).
Proof.
  apply (proj1 (proj2 (proj2 (sweep_batch_selection (db world_with_A))))
           ltac:(vm_compute; lia) steve
           {| guild_id := g_id guild_A; rank := "Member"; last_scan := Some 5000;
              highest_sb_level := None; level_last_updated := None |}).
  vm_compute. reflexivity.
Defined.

Lemma foldl_max_xp uuid (profiles : list (option Profile)) (m : Z) :
  0 ≤ m →
  foldl (highest_step uuid) (if m =? 0 then Qmake 0 1 else level_of_xp m) profiles =
    let m' := foldl (λ m profile, match profile_experience uuid profile with
                                  | Some xp => Z.max m xp
                                  | None => m
                                  end) m profiles in
    if m' =? 0 then Qmake 0 1 else level_of_xp m'.
Proof.
  revert m. induction profiles as [|p ps IH]; intros m Hm; simpl; [done|].
  unfold highest_step at 2.
  destruct (profile_experience uuid p) as [xp|]; [|by apply IH].
  destruct (xp =? 0) eqn:Hxp.
  { apply Z.eqb_eq in Hxp. subst xp. rewrite Z.max_l by done. by apply IH. }
  apply Z.eqb_neq in Hxp.
  assert (level_gt (level_of_xp xp) (if m =? 0 then Qmake 0 1 else level_of_xp m)
          = (m <? xp)) as ->.
  { unfold level_gt, Qle_bool, level_of_xp.
    destruct (m =? 0) eqn:Hm0; simpl.
    - apply Z.eqb_eq in Hm0. subst m.
      destruct (0 <? xp) eqn:H; [apply Z.ltb_lt in H | apply Z.ltb_ge in H].
      + apply negb_true_iff, Z.leb_gt. lia.
      + apply negb_false_iff, Z.leb_le. lia.
    - destruct (m <? xp) eqn:H; [apply Z.ltb_lt in H | apply Z.ltb_ge in H].
      + apply negb_true_iff, Z.leb_gt. lia.
      + apply negb_false_iff, Z.leb_le. lia. }
  destruct (m <? xp) eqn:H; [apply Z.ltb_lt in H | apply Z.ltb_ge in H].
  - rewrite Z.max_r by lia. specialize (IH xp ltac:(lia)).
    destruct (xp =? 0) eqn:Hx0; [apply Z.eqb_eq in Hx0; lia|]. apply IH.
  - rewrite Z.max_l by lia. by apply IH.
Qed.

(** X27: the level [fetchHighestSBLevel] returns depends only on the
    largest experience the player has in any of the returned profiles: it is
    that experience divided by 100, and [0] when no profile carries a positive
    experience for the player.  In particular the order of the profiles does
    not matter. *)
Theorem fetchHighestSBLevel_max_xp (E : Env) (uuid : string) (w : World)
    (body : ProfilesBody) (profiles : list (option Profile)) :
  profiles_api E uuid = Replied body →
  pb_success body = true → pb_profiles body = Some profiles →
  ∃ w', fetchHighestSBLevel E uuid w =
          Returned (Some (if max_xp uuid profiles =? 0 then Qmake 0 1
                          else level_of_xp (max_xp uuid profiles))) w'.
Proof.
  intros Hreply Hs Hps. rewrite (fetchHighestSBLevel_replied _ _ body) by done.
  rewrite Hs, Hps. simpl. eexists. do 2 f_equal.
  apply (foldl_max_xp uuid profiles 0). lia.
Qed.

Lemma fetchHighestSBLevel_max_xp_witness :
  ∃ w', fetchHighestSBLevel levels_env steve world_with_B =
          Returned (Some (level_of_xp 12345)) w'.
Proof.
  destruct (fetchHighestSBLevel_max_xp levels_env steve world_with_B
              {| pb_success := true;
                 pb_profiles := Some
                   [ Some {| pf_members := Some {[ steve :=
                       {| leveling := Some {| experience := Some 12345 |} |} ]} |};
                     Some {| pf_members := Some ∅ |} ] |}
              [ Some {| pf_members := Some {[ steve :=
                  {| leveling := Some {| experience := Some 12345 |} |} ]} |};
                Some {| pf_members := Some ∅ |} ]
              eq_refl eq_refl eq_refl) as [w' Hrun].
  exists w'. rewrite Hrun. vm_compute. reflexivity.
Defined.

(** * The worker *)


